(** * FSOP container tool: a shallow embedding of [fsop_tool.py]

    The development follows the source file from top to bottom:
    - byte strings and the XOR layer ([xor_decrypt], [xor_encrypt]);
    - Python [str] values and the two name sanitizers;
    - the text codecs, which belong to the Python runtime and are taken as
      parameters of the development ([Section Tool]);
    - [FSOPUnpacker.unpack], the decode loop over a byte buffer;
    - [FSOPPacker.detect_encoding] and [FSOPPacker.pack], split into the
      discovery of new shader pairs and the encode loop over the metadata.

    A reference instance of the codec interface ([Module PyCodec]) is given
    at the end of the definitions; the closed examples evaluate the tool on
    it. *)

From Stdlib Require Import Strings.String Strings.Ascii Strings.Byte.
From Stdlib Require Import List NArith Arith Lia Bool.
Import ListNotations.

Local Open Scope string_scope.
Local Open Scope list_scope.
Local Open Scope nat_scope.

(* ------------------------------------------------------------------ *)
(** ** Byte strings *)

(** A Python [bytes] object. *)
Definition bytes := list byte.

(** The total inverse of [Byte.to_N] on [0..255]; every call site passes a
    value below 256. *)
Definition byte_of_N (n : N) : byte :=
  match Byte.of_N n with
  | Some b => b
  | None => x00
  end.

(** [b ^ 0x9C] on one element of a [bytes] object. *)
Definition xor_9C (b : byte) : byte :=
  byte_of_N (N.lxor (Byte.to_N b) 156).

(** [FSOPUnpacker.xor_decrypt]: [bytes(b ^ 0x9C for b in data)]. *)
Definition xor_decrypt (data : bytes) : bytes := map xor_9C data.

(** [FSOPPacker.xor_encrypt]: [bytes(b ^ 0x9C for b in data)]. *)
Definition xor_encrypt (data : bytes) : bytes := map xor_9C data.

(** [data[lo:hi]] for [0 <= lo]: the slice is clipped to the buffer and never
    raises. *)
Definition slice (data : bytes) (lo hi : nat) : bytes :=
  firstn (hi - lo) (skipn lo data).

(* ------------------------------------------------------------------ *)
(** ** Exceptions *)

Inductive exn : Set :=
| ValueError      (* bytearray.append: byte must be in range(0, 256) *)
| StructError     (* struct.pack / struct.unpack *)
| UnicodeError    (* a codec failed outside any try block *)
| IndexError.     (* data[offset] out of range *)

(** The result of a computation that either returns or raises. *)
Inductive outcome (A : Type) : Type :=
| Done (a : A)
| Raised (e : exn).
Arguments Done {A} a.
Arguments Raised {A} e.

Definition bind {A B : Type} (m : outcome A) (k : A -> outcome B) : outcome B :=
  match m with
  | Done a => k a
  | Raised e => Raised e
  end.

Notation "x <- m ;; k" := (bind m (fun x => k))
  (at level 61, m at next level, right associativity).
Notation "' pat <- m ;; k" := (bind m (fun x => match x with pat => k end))
  (at level 61, pat pattern, m at next level, right associativity).

(* ------------------------------------------------------------------ *)
(** ** [struct] with format ['<I'] *)

Definition two_32 : N := 4294967296.

(** [struct.pack('<I', n)]: four bytes, least significant first; raises
    [struct.error] when [n] does not fit 32 bits. *)
Definition struct_pack_I (n : nat) : outcome bytes :=
  let v := N.of_nat n in
  if (v <? two_32)%N then
    Done [ byte_of_N (v mod 256);
           byte_of_N ((v / 256) mod 256);
           byte_of_N ((v / 65536) mod 256);
           byte_of_N ((v / 16777216) mod 256) ]
  else Raised StructError.

(** [struct.unpack('<I', b)[0]]: raises [struct.error] unless [b] has exactly
    four bytes. *)
Definition struct_unpack_I (b : bytes) : outcome nat :=
  match b with
  | [b0; b1; b2; b3] =>
      Done (N.to_nat (Byte.to_N b0 + 256 * Byte.to_N b1
                      + 65536 * Byte.to_N b2 + 16777216 * Byte.to_N b3))
  | _ => Raised StructError
  end.

(* ------------------------------------------------------------------ *)
(** ** Python strings *)

(** A Python [str]: a sequence of Unicode code points. *)
Definition pystr := list N.

(** A literal of the source, read as code points. *)
Definition str (s : string) : pystr :=
  map N_of_ascii (list_ascii_of_string s).

Definition pystr_eqb (a b : pystr) : bool :=
  if list_eq_dec N.eq_dec a b then true else false.

(** [s.endswith(suffix)]. *)
Definition endswith (s suffix : pystr) : bool :=
  pystr_eqb (skipn (length s - length suffix) s) suffix
  && (length suffix <=? length s).

(** [s.replace(old, new)] for a one-character [old]. *)
Definition replace (old : N) (new : pystr) (s : pystr) : pystr :=
  flat_map (fun c => if (c =? old)%N then new else [c]) s.

(** [str.isspace] on one character, the table of CPython's
    [_PyUnicode_IsWhitespace]. *)
Definition isspace (c : N) : bool :=
  ((9 <=? c) && (c <=? 13) || (28 <=? c) && (c <=? 32)
   || (c =? 133) || (c =? 160) || (c =? 5760)
   || (8192 <=? c) && (c <=? 8202)
   || (c =? 8232) || (c =? 8233) || (c =? 8239) || (c =? 8287)
   || (c =? 12288))%N.

Fixpoint lstrip (s : pystr) : pystr :=
  match s with
  | [] => []
  | c :: t => if isspace c then lstrip t else s
  end.

Definition rstrip (s : pystr) : pystr := rev (lstrip (rev s)).

(** [s.strip()]. *)
Definition strip (s : pystr) : pystr := rstrip (lstrip s).

Definition NUL : N := 0.
Definition underscore : pystr := str "_".

(** The string [invalid_chars] of the source, as code points: less-than 60,
    greater-than 62, colon 58, double quote 34, slash 47, backslash 92,
    vertical bar 124, question mark 63, asterisk 42. *)
Definition invalid_chars : pystr := [60; 62; 58; 34; 47; 92; 124; 63; 42]%N.

(** [FSOPUnpacker.sanitize_filename]. *)
Definition sanitize_filename (name : pystr) : pystr :=
  let name := strip (replace NUL [] name) in
  let name := fold_left (fun name char => replace char underscore name)
                        invalid_chars name in
  match name with
  | [] => str "unnamed"
  | _ => name
  end.

(** [FSOPPacker.sanitize_name]. *)
Definition sanitize_name (name : pystr) : pystr :=
  let name := strip (replace NUL [] name) in
  let name := fold_left (fun name char => replace char underscore name)
                        invalid_chars name in
  match name with
  | [] => str "unnamed"
  | _ => name
  end.


(* ------------------------------------------------------------------ *)
(** ** The metadata *)

(** One element of [metadata['shaders']]: a JSON object whose four keys
    may each be absent in a hand-edited file. *)
Record shader_info : Type := {
  name : option pystr;
  encoding : option string;
  vertex_shader_file : option pystr;
  pixel_shader_file : option pystr
}.

(** What one iteration of the unpack loop produces: the metadata entry and
    the contents of the two files it writes. *)
Record extracted : Type := {
  info : shader_info;
  vs_data : bytes;
  ps_data : bytes
}.

(** Membership in a Python [set] of strings. *)
Definition mem (x : pystr) (s : list pystr) : bool := existsb (pystr_eqb x) s.

(** The name with its terminator, as both the discovery loop and the encode
    loop compute it: [n if n.endswith('\x00') else n + '\x00']. *)
Definition null_terminated (shader_name : pystr) : pystr :=
  if endswith shader_name [NUL] then shader_name else shader_name ++ [NUL].

(** [bytearray.append(n)]: raises [ValueError] unless [0 <= n < 256]. *)
Definition bytearray_append (output_data : bytes) (n : nat) : outcome bytes :=
  if n <? 256 then Done (output_data ++ [byte_of_N (N.of_nat n)])
  else Raised ValueError.

(* ------------------------------------------------------------------ *)
(** ** The tool, over the codecs of the Python runtime *)

Section Tool.

(** [text.encode(enc)] and [raw.decode(enc)]; [None] when the call raises
    (an unknown codec name or a character the codec cannot handle): every
    call of the source but the last of each chain sits in a bare
    [try/except]. *)
Variable encode : string -> pystr -> option bytes.
Variable decode : string -> bytes -> option pystr.

(** *** FSOPUnpacker.unpack *)

(** The decoding chain of the name: shift-jis, then utf-8, then latin-1. *)
Definition decode_name (name_bytes : bytes) : outcome pystr :=
  match decode "shift-jis" name_bytes with
  | Some name_raw => Done name_raw
  | None =>
      match decode "utf-8" name_bytes with
      | Some name_raw => Done name_raw
      | None =>
          match decode "latin-1" name_bytes with
          | Some name_raw => Done name_raw
          | None => Raised UnicodeError
          end
      end
  end.

(** "Determine encoding used": the tag stored with the decoded name. *)
Definition encoding_used (name_raw : pystr) : string :=
  match encode "shift-jis" name_raw with
  | Some _ => "shift-jis"
  | None =>
      match encode "utf-8" name_raw with
      | Some _ => "utf-8"
      | None => "latin-1"
      end
  end.

(** One iteration of the [while] loop, from [offset] to the next offset. *)
Definition unpack_record (data : bytes) (offset : nat)
  : outcome (extracted * nat) :=
  match nth_error data offset with
  | None => Raised IndexError
  | Some b =>
      let name_length := N.to_nat (Byte.to_N b) in
      let offset := offset + 1 in
      let name_bytes := slice data offset (offset + name_length) in
      name_raw <- decode_name name_bytes ;;
      let safe_name := sanitize_filename name_raw in
      let enc := encoding_used name_raw in
      let offset := offset + name_length in
      vs_size <- struct_unpack_I (slice data offset (offset + 4)) ;;
      let offset := offset + 4 in
      let vs_data_encrypted := slice data offset (offset + vs_size) in
      let vs := xor_decrypt vs_data_encrypted in
      let offset := offset + vs_size in
      ps_size <- struct_unpack_I (slice data offset (offset + 4)) ;;
      let offset := offset + 4 in
      let ps_data_encrypted := slice data offset (offset + ps_size) in
      let ps := xor_decrypt ps_data_encrypted in
      let offset := offset + ps_size in
      Done ({| info := {| name := Some name_raw;
                          encoding := Some enc;
                          vertex_shader_file := Some (safe_name ++ str "_vs.fxc");
                          pixel_shader_file := Some (safe_name ++ str "_ps.fxc") |};
               vs_data := vs;
               ps_data := ps |},
            offset)
  end.

(** [while offset < len(data)], with the iterations bounded by [fuel];
    [None] is the bound running out (see [unpack_loop_fuel]). *)
Fixpoint unpack_loop (fuel : nat) (data : bytes) (offset : nat)
         (shaders : list extracted) : option (outcome (list extracted)) :=
  if offset <? length data then
    match fuel with
    | 0 => None
    | S fuel' =>
        match unpack_record data offset with
        | Raised e => Some (Raised e)
        | Done (shader, offset') =>
            unpack_loop fuel' data offset' (shaders ++ [shader])
        end
    end
  else Some (Done shaders).

(** [unpack], on the contents of the container file: the entries of
    [self.shaders] in order, each with the two blobs written for it. An
    exception leaves the loop before [metadata.json] is written. *)
Definition unpack (data : bytes) : option (outcome (list extracted)) :=
  unpack_loop (length data) data 0 [].

(** *** FSOPPacker.detect_encoding *)

Definition detect_encoding (text : pystr) : string :=
  match encode "ascii" text with
  | Some _ => "ascii"
  | None =>
      let try_sjis : option string :=
        match encode "shift-jis" text with
        | None => None
        | Some encoded_sjis =>
            match decode "shift-jis" encoded_sjis with
            | None => None
            | Some back =>
                if pystr_eqb text back then
                  match encode "utf-8" text with
                  | Some encoded_utf8 =>
                      if length encoded_utf8 <=? length encoded_sjis
                      then Some "utf-8" else Some "shift-jis"
                  | None => Some "shift-jis"
                  end
                else None
            end
        end in
      match try_sjis with
      | Some tag => tag
      | None =>
          match encode "utf-8" text with
          | Some _ => "utf-8"
          | None => "latin-1"
          end
      end
  end.

(** *** FSOPPacker.pack: new shader pairs *)

(** "Track which files are already in metadata". *)
Definition known_files (shaders : list shader_info) : list pystr :=
  fold_left
    (fun known shader =>
       let known := match vertex_shader_file shader with
                    | Some f => f :: known
                    | None => known
                    end in
       match pixel_shader_file shader with
       | Some f => f :: known
       | None => known
       end)
    shaders [].

(** "Find new shader pairs": the loop over [all_fxc_files], whose
    iteration order is the order of [todo]. *)
Fixpoint find_new_shaders (all_fxc_files known : list pystr)
         (todo : list pystr) (processed_files : list pystr)
         (new_shaders : list shader_info) : list shader_info :=
  match todo with
  | [] => new_shaders
  | fxc_file :: todo' =>
      if mem fxc_file known || mem fxc_file processed_files then
        find_new_shaders all_fxc_files known todo' processed_files new_shaders
      else if endswith fxc_file (str "_vs.fxc") then
        let base_name := firstn (length fxc_file - 7) fxc_file in
        let ps_file := base_name ++ str "_ps.fxc" in
        if mem ps_file all_fxc_files && negb (mem ps_file known) then
          let enc := detect_encoding base_name in
          let shader_name := null_terminated base_name in
          find_new_shaders all_fxc_files known todo'
            (ps_file :: fxc_file :: processed_files)
            (new_shaders ++ [ {| name := Some shader_name;
                                 encoding := Some enc;
                                 vertex_shader_file := Some fxc_file;
                                 pixel_shader_file := Some ps_file |} ])
        else
          find_new_shaders all_fxc_files known todo' processed_files new_shaders
      else
        find_new_shaders all_fxc_files known todo' processed_files new_shaders
  end.

(** The reconcile step of [pack]: the metadata after "Add new shaders to
    metadata", and the new entries. [all_fxc_files] lists the set in its
    iteration order. *)
Definition reconcile (shaders : list shader_info) (all_fxc_files : list pystr)
  : list shader_info * list shader_info :=
  let new_shaders :=
    find_new_shaders all_fxc_files (known_files shaders) all_fxc_files [] [] in
  match new_shaders with
  | [] => (shaders, new_shaders)
  | _ => (shaders ++ new_shaders, new_shaders)
  end.

(** *** FSOPPacker.pack: the encode loop *)

(** "Encode shader name using stored encoding", with its fallback chain. *)
Definition encode_name (enc : string) (shader_name : pystr) : outcome bytes :=
  match encode enc shader_name with
  | Some name_bytes => Done name_bytes
  | None =>
      match encode "shift-jis" shader_name with
      | Some name_bytes => Done name_bytes
      | None =>
          match encode "utf-8" shader_name with
          | Some name_bytes => Done name_bytes
          | None =>
              match encode "latin-1" shader_name with
              | Some name_bytes => Done name_bytes
              | None => Raised UnicodeError
              end
          end
      end
  end.

(** The bytes one record adds to [output_data]. *)
Definition write_record (output_data name_bytes vs_data_encrypted
                         ps_data_encrypted : bytes) : outcome bytes :=
  output_data <- bytearray_append output_data (length name_bytes) ;;
  let output_data := output_data ++ name_bytes in
  vs_size <- struct_pack_I (length vs_data_encrypted) ;;
  let output_data := output_data ++ vs_size in
  let output_data := output_data ++ vs_data_encrypted in
  ps_size <- struct_pack_I (length ps_data_encrypted) ;;
  let output_data := output_data ++ ps_size in
  let output_data := output_data ++ ps_data_encrypted in
  Done output_data.

(** The body of "Process shaders in metadata order" on one entry; [files]
    gives the contents of the files of the input directory, [None] for a
    file that does not exist. The state is [(output_data, packed_count)].
    Here every path that exists is a file that can be read: [files] answers
    both [Path.exists()] and [open().read()]. [pack_shader_io] keeps the two
    calls apart, and [pack_shader_io_refines] relates the two. *)
Definition pack_shader (files : pystr -> option bytes)
           (st : bytes * nat) (shader : shader_info) : outcome (bytes * nat) :=
  let '(output_data, packed_count) := st in
  match name shader with
  | None => Done st
  | Some shader_name =>
      let shader_name := null_terminated shader_name in
      match vertex_shader_file shader, pixel_shader_file shader with
      | Some vs_filename, Some ps_filename =>
          match files vs_filename, files ps_filename with
          | Some vs, Some ps =>
              let enc := match encoding shader with
                         | Some e => e
                         | None => "shift-jis"
                         end in
              name_bytes <- encode_name enc shader_name ;;
              let vs_data_encrypted := xor_encrypt vs in
              let ps_data_encrypted := xor_encrypt ps in
              output_data <- write_record output_data name_bytes
                               vs_data_encrypted ps_data_encrypted ;;
              Done (output_data, packed_count + 1)
          | _, _ => Done st
          end
      | _, _ => Done st
      end
  end.

Fixpoint pack_loop (files : pystr -> option bytes)
         (shaders : list shader_info) (st : bytes * nat)
  : outcome (bytes * nat) :=
  match shaders with
  | [] => Done st
  | shader :: rest =>
      st' <- pack_shader files st shader ;;
      pack_loop files rest st'
  end.

(** How a run of [pack] ends. The output file is written after the loop,
    so only [Packed] emits one. *)
Inductive pack_result : Type :=
| NoMetadata
    (* metadata.json not found: returns None *)
| Aborted (shaders : list shader_info) (e : exn)
    (* an exception left the loop; no output file *)
| Packed (shaders : list shader_info) (output_data : bytes)
         (packed_count : nat).
    (* output file written with [output_data] *)

(** [pack]: [metadata] is the shader list of [metadata.json] when the file
    exists, [all_fxc_files] the [*.fxc] names of the input directory. *)
Definition pack (metadata : option (list shader_info))
           (all_fxc_files : list pystr) (files : pystr -> option bytes)
  : pack_result :=
  match metadata with
  | None => NoMetadata
  | Some shaders =>
      let '(shaders, _) := reconcile shaders all_fxc_files in
      match pack_loop files shaders ([], 0) with
      | Raised e => Aborted shaders e
      | Done (output_data, packed_count) =>
          Packed shaders output_data packed_count
      end
  end.

End Tool.

(* ------------------------------------------------------------------ *)
(** ** A reference instance of the codecs *)

(** The four codec names the tool passes to [encode] and [decode], as the
    Python runtime implements them: [ascii], [latin-1] and [utf-8] in full,
    [shift-jis] on its single-byte half (ASCII and the half-width katakana
    of JIS X 0201, bytes [A1..DF], U+FF61..U+FF9F). The double-byte half of
    shift-jis needs the JIS X 0208 table, which is not carried here: the
    instance answers [None] there, and the examples below stay within the
    single-byte half. Any other codec name is answered [None]. *)
Module PyCodec.

Local Open Scope N_scope.

Definition all_below (bound : N) (s : list N) : option bytes :=
  if forallb (fun c => c <? bound) s then Some (map byte_of_N s) else None.

Definition utf8_encode_char (c : N) : option (list N) :=
  if c <? 128 then Some [c]
  else if c <? 2048 then Some [192 + c / 64; 128 + c mod 64]
  else if c <? 65536 then
    if (55296 <=? c) && (c <=? 57343) then None
    else Some [224 + c / 4096; 128 + (c / 64) mod 64; 128 + c mod 64]
  else if c <? 1114112 then
    Some [240 + c / 262144; 128 + (c / 4096) mod 64;
          128 + (c / 64) mod 64; 128 + c mod 64]
  else None.

Fixpoint utf8_encode (s : pystr) : option (list N) :=
  match s with
  | [] => Some []
  | c :: t =>
      match utf8_encode_char c, utf8_encode t with
      | Some b, Some bt => Some (b ++ bt)
      | _, _ => None
      end
  end.

Definition sjis_encode_char (c : N) : option N :=
  if c <? 128 then Some c
  else if (65377 <=? c) && (c <=? 65439) then Some (c - 65377 + 161)
  else None.

Fixpoint sjis_encode (s : pystr) : option (list N) :=
  match s with
  | [] => Some []
  | c :: t =>
      match sjis_encode_char c, sjis_encode t with
      | Some b, Some bt => Some (b :: bt)
      | _, _ => None
      end
  end.

Definition encode (enc : string) (s : pystr) : option bytes :=
  if String.eqb enc "ascii" then all_below 128 s
  else if String.eqb enc "latin-1" then all_below 256 s
  else if String.eqb enc "utf-8" then option_map (map byte_of_N) (utf8_encode s)
  else if String.eqb enc "shift-jis" then
    option_map (map byte_of_N) (sjis_encode s)
  else None.

Definition cont (b : N) : bool := (128 <=? b) && (b <=? 191).
Definition between (lo b hi : N) : bool := (lo <=? b) && (b <=? hi).

Definition push (c : N) (r : option pystr) : option pystr :=
  option_map (cons c) r.

Fixpoint utf8_decode (b : list N) : option pystr :=
  match b with
  | [] => Some []
  | b0 :: t =>
      if b0 <? 128 then push b0 (utf8_decode t)
      else if between 194 b0 223 then
        match t with
        | b1 :: t1 =>
            if cont b1
            then push ((b0 - 192) * 64 + (b1 - 128)) (utf8_decode t1)
            else None
        | _ => None
        end
      else if between 224 b0 239 then
        match t with
        | b1 :: b2 :: t2 =>
            if (if b0 =? 224 then between 160 b1 191
                else if b0 =? 237 then between 128 b1 159
                else cont b1) && cont b2
            then push ((b0 - 224) * 4096 + (b1 - 128) * 64 + (b2 - 128))
                      (utf8_decode t2)
            else None
        | _ => None
        end
      else if between 240 b0 244 then
        match t with
        | b1 :: b2 :: b3 :: t3 =>
            if (if b0 =? 240 then between 144 b1 191
                else if b0 =? 244 then between 128 b1 143
                else cont b1) && cont b2 && cont b3
            then push ((b0 - 240) * 262144 + (b1 - 128) * 4096
                       + (b2 - 128) * 64 + (b3 - 128))
                      (utf8_decode t3)
            else None
        | _ => None
        end
      else None
  end.

Definition sjis_decode_byte (b : N) : option N :=
  if b <? 128 then Some b
  else if between 161 b 223 then Some (b - 161 + 65377)
  else None.

Fixpoint sjis_decode (b : list N) : option pystr :=
  match b with
  | [] => Some []
  | b0 :: t =>
      match sjis_decode_byte b0, sjis_decode t with
      | Some c, Some ct => Some (c :: ct)
      | _, _ => None
      end
  end.

Definition decode (enc : string) (raw : bytes) : option pystr :=
  let b := map Byte.to_N raw in
  if String.eqb enc "ascii" then
    (if forallb (fun c => c <? 128) b then Some b else None)
  else if String.eqb enc "latin-1" then Some b
  else if String.eqb enc "utf-8" then utf8_decode b
  else if String.eqb enc "shift-jis" then sjis_decode b
  else None.

End PyCodec.

Definition py_unpack := unpack PyCodec.encode PyCodec.decode.
Definition py_pack := pack PyCodec.encode PyCodec.decode.

(** The files of an input directory, as an association list. *)
Fixpoint files_of (dir : list (pystr * bytes)) (f : pystr) : option bytes :=
  match dir with
  | [] => None
  | (g, content) :: rest => if pystr_eqb f g then Some content else files_of rest f
  end.

(** The sanitizer as the specification words it: drop the null characters,
    trim, map each reserved character to the placeholder, and fall back to
    the fixed name when nothing is left. *)
Definition is_reserved (c : N) : bool := existsb (N.eqb c) invalid_chars.

Definition sanitize_spec (s : pystr) : pystr :=
  let kept := filter (fun c => negb (c =? NUL)%N) s in
  let shown := map (fun c => if is_reserved c then 95%N else c) (strip kept) in
  match shown with
  | [] => str "unnamed"
  | _ => shown
  end.

(** The tags a metadata entry can carry after discovery. *)
Definition recognized_tags : list string := ["shift-jis"; "utf-8"; "latin-1"].
Definition inferred_tags : list string := "ascii" :: recognized_tags.

(** [f] is referenced by some entry of the metadata. *)
Definition referenced (shaders : list shader_info) (f : pystr) : Prop :=
  exists shader, In shader shaders /\
    (vertex_shader_file shader = Some f \/ pixel_shader_file shader = Some f).

(** The tag [pack] encodes a name with: the stored one, shift-jis when the
    entry has none. *)
Definition stored_encoding (shader : shader_info) : string :=
  match encoding shader with
  | Some e => e
  | None => "shift-jis"
  end.

(** The entries the encode loop does not skip: the three required keys are
    present and both files exist. *)
Definition ready (files : pystr -> option bytes) (shader : shader_info) : bool :=
  match name shader, vertex_shader_file shader, pixel_shader_file shader with
  | Some _, Some v, Some p =>
      match files v, files p with
      | Some _, Some _ => true
      | _, _ => false
      end
  | _, _, _ => false
  end.

(** The four bytes of a little-endian 32-bit size. *)
Definition le32 (n : nat) : bytes :=
  let v := N.of_nat n in
  [ byte_of_N (v mod 256); byte_of_N ((v / 256) mod 256);
    byte_of_N ((v / 65536) mod 256); byte_of_N ((v / 16777216) mod 256) ].

(** One record of the container, from the encoded name and the two
    obfuscated blobs. *)
Definition record_bytes (name_bytes vs_enc ps_enc : bytes) : bytes :=
  byte_of_N (N.of_nat (length name_bytes)) :: name_bytes
  ++ le32 (length vs_enc) ++ vs_enc ++ le32 (length ps_enc) ++ ps_enc.

(** The entry [unpack] builds from a decoded name and the two plain
    blobs. *)
Definition extract (encode : string -> pystr -> option bytes)
           (name_raw : pystr) (vs ps : bytes) : extracted :=
  {| info := {| name := Some name_raw;
                encoding := Some (encoding_used encode name_raw);
                vertex_shader_file :=
                  Some (sanitize_filename name_raw ++ str "_vs.fxc");
                pixel_shader_file :=
                  Some (sanitize_filename name_raw ++ str "_ps.fxc") |};
     vs_data := vs;
     ps_data := ps |}.

(** Moving a decoded record [k] bytes further into the buffer. *)
Definition shift_offset (k : nat) (r : outcome (extracted * nat))
  : outcome (extracted * nat) :=
  '(shader, offset) <- r ;; Done (shader, k + offset).

(** A record as it lies in the container: the encoded name and the two
    obfuscated blobs. *)
Record wire : Type := {
  wire_name : bytes;
  wire_vs : bytes;
  wire_ps : bytes
}.

Definition wire_bytes (w : wire) : bytes :=
  record_bytes (wire_name w) (wire_vs w) (wire_ps w).

(** The three lengths fit their fields. *)
Definition wire_fits (w : wire) : Prop :=
  length (wire_name w) < 256
  /\ (N.of_nat (length (wire_vs w)) < two_32)%N
  /\ (N.of_nat (length (wire_ps w)) < two_32)%N.

(** What the decode loop makes of a sequence of whole records. *)
Fixpoint decode_wires (encode : string -> pystr -> option bytes)
         (decode : string -> bytes -> option pystr) (ws : list wire)
  : outcome (list extracted) :=
  match ws with
  | [] => Done []
  | w :: rest =>
      name_raw <- decode_name decode (wire_name w) ;;
      shaders <- decode_wires encode decode rest ;;
      Done (extract encode name_raw (xor_decrypt (wire_vs w))
                    (xor_decrypt (wire_ps w)) :: shaders)
  end.

(** The last record [lb :: body] of a buffer stops before its pixel bytes:
    the name or the vertex-size field runs past the end, or the vertex
    bytes or the pixel-size field do. *)
Definition cut_before_pixels (lb : byte) (body : bytes) : Prop :=
  let nl := N.to_nat (Byte.to_N lb) in
  length body < nl + 4
  \/ exists vs_size,
       struct_unpack_I (slice body nl (nl + 4)) = Done vs_size
       /\ length body < nl + 4 + vs_size + 4.

(** The blob an entry refers to. *)
Definition blob (files : pystr -> option bytes) (ref : option pystr)
  : option bytes :=
  match ref with
  | Some f => files f
  | None => None
  end.

(** The record the encode loop writes for an entry it does not skip and
    whose name the chain encodes. *)
Definition shader_wire (encode : string -> pystr -> option bytes)
           (files : pystr -> option bytes) (shader : shader_info) : option wire :=
  match name shader, blob files (vertex_shader_file shader),
        blob files (pixel_shader_file shader) with
  | Some nm, Some vs, Some ps =>
      match encode_name encode (stored_encoding shader) (null_terminated nm) with
      | Done nb => Some {| wire_name := nb;
                           wire_vs := xor_encrypt vs;
                           wire_ps := xor_encrypt ps |}
      | Raised _ => None
      end
  | _, _, _ => None
  end.

(** An entry that survives encoding and decoding: its two blobs exist and
    are shorter than 2^32 bytes, its terminated name encodes to at most 255
    bytes, and the decoding chain reads those bytes back as that name. *)
Definition round_trips (encode : string -> pystr -> option bytes)
           (decode : string -> bytes -> option pystr)
           (files : pystr -> option bytes) (shader : shader_info) : Prop :=
  exists nm vs ps nb,
    name shader = Some nm
    /\ blob files (vertex_shader_file shader) = Some vs
    /\ blob files (pixel_shader_file shader) = Some ps
    /\ (N.of_nat (length vs) < two_32)%N
    /\ (N.of_nat (length ps) < two_32)%N
    /\ encode_name encode (stored_encoding shader) (null_terminated nm) = Done nb
    /\ length nb < 256
    /\ decode_name decode nb = Done (null_terminated nm).

(** What the round trip compares: the name and the two blobs. *)
Definition extracted_view (x : extracted) : option pystr * option bytes * option bytes :=
  (name (info x), Some (vs_data x), Some (ps_data x)).

Definition shader_view (files : pystr -> option bytes) (shader : shader_info)
  : option pystr * option bytes * option bytes :=
  (option_map null_terminated (name shader),
   blob files (vertex_shader_file shader),
   blob files (pixel_shader_file shader)).

(** One character of a sanitized name. *)
Definition shown (c : N) : N := if is_reserved c then 95%N else c.

(** An entry as the discovery loop adds it: its name is the terminated
    base name and its tag the one [detect_encoding] computes for the base
    name. *)
Definition discovered (encode : string -> pystr -> option bytes)
           (decode : string -> bytes -> option pystr)
           (shader : shader_info) : Prop :=
  exists base_name,
    name shader = Some (null_terminated base_name)
    /\ encoding shader = Some (detect_encoding encode decode base_name).

(** ** Example inputs *)

Definition shader_A : shader_info :=
  {| name := Some (str "A");
     encoding := Some "utf-8";
     vertex_shader_file := Some (str "A_vs.fxc");
     pixel_shader_file := Some (str "A_ps.fxc") |}.

Definition shader_B : shader_info :=
  {| name := Some (str "B");
     encoding := None;
     vertex_shader_file := Some (str "B_vs.fxc");
     pixel_shader_file := Some (str "B_ps.fxc") |}.

(** A directory that holds the two files of [shader_A] and, of
    [shader_B], the pixel file only. *)
Definition dir_A : pystr -> option bytes :=
  files_of [(str "A_vs.fxc", [x01; x02]); (str "A_ps.fxc", []);
            (str "B_ps.fxc", [x03])].

Definition wire_A : wire :=
  {| wire_name := [x41; x00]; wire_vs := [x9d; x9e]; wire_ps := [] |}.

Definition shader_long : shader_info :=
  {| name := Some (repeat 65%N 256);
     encoding := Some "utf-8";
     vertex_shader_file := Some (str "A_vs.fxc");
     pixel_shader_file := Some (str "A_ps.fxc") |}.

Definition shader_e_acute : shader_info :=
  {| name := Some [233%N];
     encoding := Some "utf-8";
     vertex_shader_file := Some (str "A_vs.fxc");
     pixel_shader_file := Some (str "A_ps.fxc") |}.

(* ------------------------------------------------------------------ *)
(** ** The files written by [unpack] *)

(** [open(f, 'wb').write(content)] in a directory. *)
Definition write_file (files : pystr -> option bytes) (f : pystr)
           (content : bytes) : pystr -> option bytes :=
  fun g => if pystr_eqb g f then Some content else files g.

Definition write_all (files : pystr -> option bytes)
           (writes : list (pystr * bytes)) : pystr -> option bytes :=
  fold_left (fun files w => write_file files (fst w) (snd w)) writes files.

(** "Write vertex shader", "Write pixel shader": the two files one
    iteration of the unpack loop writes, named after the sanitized name. *)
Definition unpack_writes (shader : extracted) : list (pystr * bytes) :=
  match name (info shader) with
  | Some name_raw =>
      let safe_name := sanitize_filename name_raw in
      [ (safe_name ++ str "_vs.fxc", vs_data shader);
        (safe_name ++ str "_ps.fxc", ps_data shader) ]
  | None => []
  end.

(** The output directory after the loop has produced [shaders], from the
    directory [files] it started with. *)
Definition unpack_dir (files : pystr -> option bytes)
           (shaders : list extracted) : pystr -> option bytes :=
  write_all files (flat_map unpack_writes shaders).

(** The sanitized name the files of an entry are named after. *)
Definition safe_name_of (shader : extracted) : option pystr :=
  option_map sanitize_filename (name (info shader)).

(** The name bytes of a record are what [pack] writes for the name and
    tag [unpack] stores for them. *)
Definition re_encodes (encode : string -> pystr -> option bytes)
           (decode : string -> bytes -> option pystr) (w : wire) : Prop :=
  exists name_raw,
    decode_name decode (wire_name w) = Done name_raw
    /\ encode_name encode (encoding_used encode name_raw)
                   (null_terminated name_raw) = Done (wire_name w).

(** An entry as [unpack] stores it. *)
Definition unpacked_entry (encode : string -> pystr -> option bytes)
           (shader : extracted) : Prop :=
  exists name_raw tag,
    name (info shader) = Some name_raw
    /\ encoding (info shader) = Some tag
    /\ In tag recognized_tags
    /\ vertex_shader_file (info shader)
       = Some (sanitize_filename name_raw ++ str "_vs.fxc")
    /\ pixel_shader_file (info shader)
       = Some (sanitize_filename name_raw ++ str "_ps.fxc")
    /\ (encode tag name_raw <> None \/ tag = "latin-1").

(** The entry [shader] is what the decode loop makes of the record [w]:
    the name is the decoded name bytes and the blobs are the stored bytes
    with the XOR layer removed. *)
Definition decoded_from (decode : string -> bytes -> option pystr)
           (w : wire) (shader : extracted) : Prop :=
  (exists name_raw,
      decode_name decode (wire_name w) = Done name_raw
      /\ name (info shader) = Some name_raw)
  /\ vs_data shader = xor_decrypt (wire_vs w)
  /\ ps_data shader = xor_decrypt (wire_ps w).

(** The entry [shader] of a decoded container carries the blobs the
    metadata entry [s] refers to. *)
Definition same_blobs (files : pystr -> option bytes) (s : shader_info)
           (shader : extracted) : Prop :=
  blob files (vertex_shader_file s) = Some (vs_data shader)
  /\ blob files (pixel_shader_file s) = Some (ps_data shader).

(** A metadata entry without its name key: skipped by [pack] as
    "missing 'name' field". *)
Definition shader_nameless : shader_info :=
  {| name := None;
     encoding := Some "utf-8";
     vertex_shader_file := Some (str "A_vs.fxc");
     pixel_shader_file := Some (str "A_ps.fxc") |}.

(** A metadata entry made for the pair of files of [base_name]. *)
Definition pair_entry (base_name : pystr) (shader : shader_info) : Prop :=
  name shader = Some (null_terminated base_name)
  /\ vertex_shader_file shader = Some (base_name ++ str "_vs.fxc")
  /\ pixel_shader_file shader = Some (base_name ++ str "_ps.fxc").

(** A new entry pairs two files of the listing that no persisted entry
    refers to. *)
Definition new_pair (shaders : list shader_info) (all_fxc_files : list pystr)
           (shader : shader_info) : Prop :=
  exists base_name,
    pair_entry base_name shader
    /\ In (base_name ++ str "_vs.fxc") all_fxc_files
    /\ In (base_name ++ str "_ps.fxc") all_fxc_files
    /\ ~ referenced shaders (base_name ++ str "_vs.fxc")
    /\ ~ referenced shaders (base_name ++ str "_ps.fxc").

(* ------------------------------------------------------------------ *)
(** ** [patch_mgsv_graphics_debugger.py] *)

(** The constants of [patch_mgsv_exe]; the offset is 0x2ba642. *)
Definition FILE_OFFSET : nat := N.to_nat 2860610.
Definition EXPECTED_BYTES : bytes := [x0f; x84; x1f; x04; x00; x00].
Definition PATCH_BYTES : bytes := [x48; xe9; x00; x00; x00; x00].

(** [a == b] on byte strings. *)
Definition bytes_eqb (a b : bytes) : bool :=
  if list_eq_dec byte_eq_dec a b then true else false.

(** [data[lo:hi] = new] on a [bytearray], for [lo <= hi]: both bounds are
    clipped to the length. *)
Definition set_slice (data : bytes) (lo hi : nat) (new : bytes) : bytes :=
  firstn lo data ++ new ++ skipn hi data.

(** The two files the patcher works on: the executable and its
    [.exe.bak] backup, each absent or with its contents. *)
Record exe_files : Type := {
  exe : option bytes;
  backup : option bytes
}.

(** [patch_mgsv_exe]: the value returned and the files afterwards. *)
Definition patch_mgsv_exe (fs : exe_files) : bool * exe_files :=
  match exe fs with
  | None => (false, fs)
  | Some content =>
      let fs := match backup fs with
                | None => {| exe := exe fs; backup := Some content |}
                | Some _ => fs
                end in
      let data := content in
      let actual_bytes := slice data FILE_OFFSET (FILE_OFFSET + 6) in
      if bytes_eqb actual_bytes EXPECTED_BYTES then
        let data := set_slice data FILE_OFFSET (FILE_OFFSET + 6) PATCH_BYTES in
        (true, {| exe := Some data; backup := backup fs |})
      else if bytes_eqb actual_bytes PATCH_BYTES then (true, fs)
      else (false, fs)
  end.

(** [restore_backup]. *)
Definition restore_backup (fs : exe_files) : bool * exe_files :=
  match backup fs with
  | None => (false, fs)
  | Some content => (true, {| exe := Some content; backup := backup fs |})
  end.

(* ------------------------------------------------------------------ *)
(** ** The encode loop with its two file-system calls kept apart *)

(** A path of the input directory as the encode loop meets it: absent; a
    file that can be read, with its contents; or something that exists and
    cannot be read as a file (a directory, which the empty reference names
    since [input_dir / ''] is [input_dir]; a file that cannot be opened). *)
Inductive path_state : Type :=
| Absent
| Readable (content : bytes)
| Unreadable.

(** [Path.exists()]. *)
Definition path_exists (p : path_state) : bool :=
  match p with
  | Absent => false
  | Readable _ => true
  | Unreadable => true
  end.

(** The result of code that opens files: what the code returns or raises
    by itself, or the [OSError] of [open]. *)
Inductive io_outcome (A : Type) : Type :=
| Ran (r : outcome A)
| RaisedOSError.
Arguments Ran {A} r.
Arguments RaisedOSError {A}.

(** The body of "Process shaders in metadata order" on one entry, with
    [vs_file.exists()], [ps_file.exists()] and the two [open(...).read()]
    as separate steps, in the order of the source. *)
Definition pack_shader_io (encode : string -> pystr -> option bytes)
           (dir : pystr -> path_state)
           (st : bytes * nat) (shader : shader_info)
  : io_outcome (bytes * nat) :=
  let '(output_data, packed_count) := st in
  match name shader with
  | None => Ran (Done st)
  | Some shader_name =>
      let shader_name := null_terminated shader_name in
      match vertex_shader_file shader, pixel_shader_file shader with
      | Some vs_filename, Some ps_filename =>
          if negb (path_exists (dir vs_filename))
             || negb (path_exists (dir ps_filename))
          then Ran (Done st)
          else
            match dir vs_filename with
            | Readable vs =>
                match dir ps_filename with
                | Readable ps =>
                    let enc := match encoding shader with
                               | Some e => e
                               | None => "shift-jis"
                               end in
                    Ran (name_bytes <- encode_name encode enc shader_name ;;
                         let vs_data_encrypted := xor_encrypt vs in
                         let ps_data_encrypted := xor_encrypt ps in
                         output_data <- write_record output_data name_bytes
                                          vs_data_encrypted ps_data_encrypted ;;
                         Done (output_data, packed_count + 1))
                | _ => RaisedOSError
                end
            | _ => RaisedOSError
            end
      | _, _ => Ran (Done st)
      end
  end.

(** The files of a directory that can be read. *)
Definition readable (dir : pystr -> path_state) (f : pystr) : option bytes :=
  match dir f with
  | Readable content => Some content
  | _ => None
  end.

(** The entries the encode loop does not skip, by [Path.exists()]: the
    three required keys are present and both paths exist. *)
Definition ready_io (dir : pystr -> path_state) (shader : shader_info) : bool :=
  match name shader, vertex_shader_file shader, pixel_shader_file shader with
  | Some _, Some v, Some p => path_exists (dir v) && path_exists (dir p)
  | _, _, _ => false
  end.

(** A directory in which the empty reference, which names the directory
    itself, exists without being a file. *)
Definition dir_with_empty_reference (f : pystr) : path_state :=
  match f with
  | [] => Unreadable
  | _ => match dir_A f with
         | Some content => Readable content
         | None => Absent
         end
  end.

Definition shader_empty_reference : shader_info :=
  {| name := Some (str "A");
     encoding := Some "utf-8";
     vertex_shader_file := Some [];
     pixel_shader_file := Some (str "A_ps.fxc") |}.

(* ================================================================== *)
(** * Properties *)

(** ** The XOR layer *)

Lemma xor_9C_involutive (b : byte) : xor_9C (xor_9C b) = b.
Proof. destruct b; reflexivity. Qed.

Lemma map_xor_9C_twice (b : bytes) : map xor_9C (map xor_9C b) = b.
Proof.
  induction b as [|x t IH]; simpl; [reflexivity|].
  now rewrite xor_9C_involutive, IH.
Qed.

(** C8. The XOR transform is an involution: applying the byte-wise XOR with
    0x9C twice, in either of its two copies, gives back the byte sequence. *)
Theorem xor_involution (b : bytes) :
  xor_decrypt (xor_decrypt b) = b
  /\ xor_encrypt (xor_encrypt b) = b
  /\ xor_decrypt (xor_encrypt b) = b
  /\ xor_encrypt (xor_decrypt b) = b.
Proof.
  unfold xor_decrypt, xor_encrypt. repeat split; apply map_xor_9C_twice.
Qed.

(** ** String helpers *)

Lemma pystr_eqb_eq (a b : pystr) : pystr_eqb a b = true <-> a = b.
Proof.
  unfold pystr_eqb. destruct (list_eq_dec N.eq_dec a b); split; congruence.
Qed.

Lemma pystr_eqb_refl (a : pystr) : pystr_eqb a a = true.
Proof. now apply pystr_eqb_eq. Qed.

Lemma endswith_spec (s suffix : pystr) :
  endswith s suffix = true <-> exists p, s = p ++ suffix.
Proof.
  unfold endswith. rewrite andb_true_iff, pystr_eqb_eq, Nat.leb_le. split.
  - intros [Hs Hl]. exists (firstn (length s - length suffix) s).
    pose proof (firstn_skipn (length s - length suffix) s) as E.
    rewrite Hs in E. now symmetry.
  - intros [p ->]. rewrite length_app. split; [|lia].
    replace (length p + length suffix - length suffix) with (length p + 0) by lia.
    now rewrite skipn_app, Nat.add_0_r, skipn_all, Nat.sub_diag.
Qed.

Lemma endswith_app (p suffix : pystr) : endswith (p ++ suffix) suffix = true.
Proof. apply endswith_spec. now exists p. Qed.

Lemma endswith_snoc_one (p : pystr) (c d : N) :
  endswith (p ++ [c]) [d] = (c =? d)%N.
Proof.
  apply eq_true_iff_eq. rewrite endswith_spec, N.eqb_eq. split.
  - intros [q H]. apply app_inj_tail in H. tauto.
  - intros ->. now exists p.
Qed.

Lemma endswith_snoc_two (p : pystr) (c d e : N) :
  endswith (p ++ [c]) [d; e] = endswith p [d] && (c =? e)%N.
Proof.
  apply eq_true_iff_eq.
  rewrite andb_true_iff, !endswith_spec, N.eqb_eq. split.
  - intros [q H]. change [d; e] with ([d] ++ [e]) in H.
    rewrite app_assoc in H. apply app_inj_tail in H. destruct H as [-> ->].
    split; [now exists q | reflexivity].
  - intros [[q ->] ->]. exists q. now rewrite <- app_assoc.
Qed.

Lemma endswith_nil_cons (c : N) (suffix : pystr) : endswith [] (c :: suffix) = false.
Proof.
  destruct (endswith [] (c :: suffix)) eqn:E; [|reflexivity].
  apply endswith_spec in E. destruct E as [p H]. destruct p; discriminate.
Qed.

(** ** The sanitizers *)

Lemma replace_by_char (old new : N) (s : pystr) :
  replace old [new] s = map (fun c => if (c =? old)%N then new else c) s.
Proof.
  unfold replace. induction s as [|c t IH]; simpl; [reflexivity|].
  rewrite IH. now destruct (c =? old)%N.
Qed.

Lemma replace_by_nothing (old : N) (s : pystr) :
  replace old [] s = filter (fun c => negb (c =? old)%N) s.
Proof.
  unfold replace. induction s as [|c t IH]; simpl; [reflexivity|].
  rewrite IH. now destruct (c =? old)%N.
Qed.

Lemma reserved_pass (c : N) :
  fold_left (fun x char => if (x =? char)%N then 95%N else x) invalid_chars c
  = if is_reserved c then 95%N else c.
Proof.
  unfold is_reserved, invalid_chars. simpl.
  repeat match goal with
         | |- context [N.eqb c ?k] => destruct (N.eqb_spec c k); [subst; reflexivity|]
         end.
  simpl. reflexivity.
Qed.

Lemma fold_replace_map (chars : pystr) (s : pystr) :
  fold_left (fun name char => replace char underscore name) chars s
  = map (fun c => fold_left (fun x char => if (x =? char)%N then 95%N else x) chars c) s.
Proof.
  revert s. induction chars as [|k chars IH]; intros s; simpl.
  - now rewrite map_id.
  - rewrite IH. change underscore with [95%N]. rewrite replace_by_char.
    now rewrite map_map.
Qed.

Lemma sanitize_filename_spec (s : pystr) : sanitize_filename s = sanitize_spec s.
Proof.
  unfold sanitize_filename, sanitize_spec.
  rewrite replace_by_nothing, fold_replace_map.
  erewrite map_ext; [reflexivity|]. intros c. apply reserved_pass.
Qed.

Lemma lstrip_length (s : pystr) : length (lstrip s) <= length s.
Proof.
  induction s as [|c t IH]; simpl; [lia|].
  destruct (isspace c); simpl; lia.
Qed.

Lemma lstrip_idem (s : pystr) : lstrip (lstrip s) = lstrip s.
Proof.
  induction s as [|c t IH]; simpl; [reflexivity|].
  destruct (isspace c) eqn:E; [exact IH|]. simpl. now rewrite E.
Qed.

Lemma lstrip_snoc (l : pystr) (c : N) :
  isspace c = false -> lstrip (l ++ [c]) = lstrip l ++ [c].
Proof.
  intros Hc. induction l as [|x t IH]; simpl.
  - now rewrite Hc.
  - destruct (isspace x); [exact IH | reflexivity].
Qed.

Lemma rstrip_idem (s : pystr) : rstrip (rstrip s) = rstrip s.
Proof. unfold rstrip. now rewrite rev_involutive, lstrip_idem. Qed.

Lemma lstrip_rstrip_fixed (u : pystr) :
  lstrip u = u -> lstrip (rstrip u) = rstrip u.
Proof.
  destruct u as [|c t]; [reflexivity|].
  simpl. destruct (isspace c) eqn:E.
  - intros H. pose proof (lstrip_length t) as L. rewrite H in L. simpl in L. lia.
  - intros _. unfold rstrip.
    change (rev (c :: t)) with (rev t ++ [c]). rewrite (lstrip_snoc _ _ E).
    rewrite rev_app_distr. simpl. now rewrite E.
Qed.

Lemma strip_idem (s : pystr) : strip (strip s) = strip s.
Proof.
  unfold strip.
  rewrite (lstrip_rstrip_fixed (lstrip s) (lstrip_idem s)).
  apply rstrip_idem.
Qed.

Lemma lstrip_map (f : N -> N) (s : pystr) :
  (forall c, isspace (f c) = isspace c) ->
  lstrip (map f s) = map f (lstrip s).
Proof.
  intros Hf. induction s as [|c t IH]; simpl; [reflexivity|].
  rewrite Hf. now destruct (isspace c).
Qed.

Lemma strip_map (f : N -> N) (s : pystr) :
  (forall c, isspace (f c) = isspace c) ->
  strip (map f s) = map f (strip s).
Proof.
  intros Hf. unfold strip, rstrip.
  now rewrite (lstrip_map f s Hf), <- map_rev, (lstrip_map f _ Hf), map_rev.
Qed.

Lemma lstrip_Forall (P : N -> Prop) (s : pystr) :
  Forall P s -> Forall P (lstrip s).
Proof.
  induction 1 as [|c t Hc Ht IH]; simpl; [constructor|].
  destruct (isspace c); [exact IH | now constructor].
Qed.

Lemma strip_Forall (P : N -> Prop) (s : pystr) :
  Forall P s -> Forall P (strip s).
Proof.
  intros H. unfold strip, rstrip.
  now apply Forall_rev, lstrip_Forall, Forall_rev, lstrip_Forall.
Qed.

Lemma shown_isspace (c : N) : isspace (shown c) = isspace c.
Proof.
  unfold shown, is_reserved, invalid_chars. simpl.
  repeat match goal with
         | |- context [N.eqb c ?k] => destruct (N.eqb_spec c k); [subst; reflexivity|]
         end.
  reflexivity.
Qed.

Lemma shown_clean (c : N) :
  c <> NUL -> is_reserved (shown c) || (shown c =? NUL)%N = false.
Proof.
  intros Hc. unfold shown. destruct (is_reserved c) eqn:E; [reflexivity|].
  rewrite E. simpl. now apply N.eqb_neq.
Qed.

(** C9. [sanitize_filename] removes the null characters, trims the
    surrounding whitespace, replaces each of the nine reserved characters
    (less-than, greater-than, colon, double quote, slash, backslash, bar,
    question mark, asterisk) with an underscore and answers "unnamed" when nothing is left: it
    computes the function worded that way, its result holds no null and no
    reserved character, is trimmed and is not empty; and the three examples
    of the specification evaluate as stated. *)
Theorem sanitize_filename_correct (s : pystr) :
  sanitize_filename s = sanitize_spec s
  /\ forallb (fun c => negb (is_reserved c || (c =? NUL)%N)) (sanitize_filename s) = true
  /\ strip (sanitize_filename s) = sanitize_filename s
  /\ sanitize_filename s <> []
  /\ sanitize_filename (str "a/b:c") = str "a_b_c"
  /\ sanitize_filename (str "") = str "unnamed"
  /\ sanitize_filename [120; 0; 32]%N = str "x".
Proof.
  rewrite sanitize_filename_spec. unfold sanitize_spec.
  set (kept := filter (fun c => negb (c =? NUL)%N) s).
  change (fun c => if is_reserved c then 95%N else c) with shown.
  assert (Hkept : Forall (fun c => c <> NUL) (strip kept)).
  { apply strip_Forall, Forall_forall. intros c Hc.
    apply filter_In in Hc. destruct Hc as [_ Hc].
    apply negb_true_iff in Hc. now apply N.eqb_neq. }
  assert (Hclean : forallb (fun c => negb (is_reserved c || (c =? NUL)%N))
                           (map shown (strip kept)) = true).
  { apply forallb_forall. intros c Hc. apply in_map_iff in Hc.
    destruct Hc as [d [<- Hd]]. rewrite Forall_forall in Hkept.
    now rewrite (shown_clean d (Hkept d Hd)). }
  assert (Htrim : strip (map shown (strip kept)) = map shown (strip kept)).
  { now rewrite (strip_map shown _ shown_isspace), strip_idem. }
  split; [reflexivity|].
  destruct (map shown (strip kept)) as [|c t] eqn:E.
  - repeat split; try reflexivity. discriminate.
  - repeat split; try reflexivity; try assumption. discriminate.
Qed.

(** C10. The unpacker's [sanitize_filename] and the packer's
    [sanitize_name] are the same function: the file names written at unpack
    time are the names the packer derives. *)
Theorem sanitize_name_agrees (s : pystr) : sanitize_name s = sanitize_filename s.
Proof. reflexivity. Qed.

(** ** The terminator *)

(** C6 as stated fails: a name that already ends with two null characters
    is kept as it is, so the normalized name ends with two of them. *)
Lemma null_terminated_keeps_double_null :
  null_terminated [65; NUL; NUL]%N = [65; NUL; NUL]%N
  /\ endswith (null_terminated [65; NUL; NUL]%N) [NUL; NUL] = true.
Proof. split; reflexivity. Qed.

(** C6, amended. The pack-time normalization yields a name that ends with
    a null character: the name itself when it already ends with one, the
    name with one null appended otherwise; and the result ends with two
    null characters exactly when the given name did. *)
Theorem null_terminated_correct (shader_name : pystr) :
  endswith (null_terminated shader_name) [NUL] = true
  /\ null_terminated shader_name
     = shader_name ++ (if endswith shader_name [NUL] then [] else [NUL])
  /\ endswith (null_terminated shader_name) [NUL; NUL]
     = endswith shader_name [NUL; NUL].
Proof.
  unfold null_terminated.
  destruct (endswith shader_name [NUL]) eqn:E.
  - repeat split; [exact E | now rewrite app_nil_r].
  - repeat split; [apply endswith_app|].
    rewrite endswith_snoc_two, E. simpl.
    destruct shader_name as [|c t] using rev_ind.
    + symmetry. apply endswith_nil_cons.
    + rewrite endswith_snoc_one in E. rewrite endswith_snoc_two, E.
      now rewrite andb_false_r.
Qed.

(** ** Discovery of new shader pairs *)

Section Discovery.

Variable encode : string -> pystr -> option bytes.
Variable decode : string -> bytes -> option pystr.

Lemma detect_encoding_cases (text : pystr) :
  match encode "ascii" text with
  | Some _ => detect_encoding encode decode text = "ascii"
  | None => In (detect_encoding encode decode text) recognized_tags
  end.
Proof.
  unfold detect_encoding, recognized_tags.
  destruct (encode "ascii" text); [reflexivity|].
  destruct (encode "shift-jis" text) as [sj|];
    [destruct (decode "shift-jis" sj) as [back|];
     [destruct (pystr_eqb text back)|]|];
    destruct (encode "utf-8" text) as [u|];
    try destruct (length u <=? length sj);
    simpl; tauto.
Qed.

Lemma find_new_shaders_discovered (all_fxc_files known todo processed : list pystr)
      (new_shaders : list shader_info) :
  Forall (discovered encode decode) new_shaders ->
  Forall (discovered encode decode)
         (find_new_shaders encode decode all_fxc_files known todo processed new_shaders).
Proof.
  revert processed new_shaders.
  induction todo as [|f todo IH]; intros processed new_shaders H; simpl; [exact H|].
  destruct (mem f known || mem f processed); [now apply IH|].
  destruct (endswith f (str "_vs.fxc")); [|now apply IH].
  destruct (mem _ all_fxc_files && negb (mem _ known)); [|now apply IH].
  apply IH. apply Forall_app. split; [exact H|].
  constructor; [|constructor].
  exists (firstn (length f - 7) f). split; reflexivity.
Qed.

Lemma reconcile_discovered (shaders : list shader_info) (all_fxc_files : list pystr) :
  Forall (discovered encode decode)
         (snd (reconcile encode decode shaders all_fxc_files)).
Proof.
  unfold reconcile.
  pose proof (find_new_shaders_discovered all_fxc_files (known_files shaders)
                all_fxc_files [] [] (Forall_nil _)) as H.
  destruct (find_new_shaders _ _ _ _ _ _ _); exact H.
Qed.

Lemma find_new_shaders_known (all_fxc_files known todo processed : list pystr)
      (new_shaders : list shader_info) :
  (forall f, In f todo -> mem f known = true) ->
  find_new_shaders encode decode all_fxc_files known todo processed new_shaders
  = new_shaders.
Proof.
  revert processed new_shaders.
  induction todo as [|f todo IH]; intros processed new_shaders H; simpl; [reflexivity|].
  rewrite (H f (or_introl eq_refl)). simpl.
  apply IH. intros g Hg. apply H. now right.
Qed.

End Discovery.

Lemma mem_In (x : pystr) (s : list pystr) : mem x s = true <-> In x s.
Proof.
  unfold mem. rewrite existsb_exists. split.
  - intros [y [Hy E]]. apply pystr_eqb_eq in E. now subst.
  - intros H. exists x. split; [exact H | apply pystr_eqb_refl].
Qed.

Lemma known_files_fold (shaders : list shader_info) (acc : list pystr) (f : pystr) :
  In f (fold_left
          (fun known shader =>
             let known := match vertex_shader_file shader with
                          | Some f => f :: known
                          | None => known
                          end in
             match pixel_shader_file shader with
             | Some f => f :: known
             | None => known
             end)
          shaders acc)
  <-> In f acc \/ referenced shaders f.
Proof.
  revert acc. induction shaders as [|s rest IH]; intros acc; simpl.
  - split; [tauto|]. intros [H|[x [[] _]]]. exact H.
  - rewrite IH. unfold referenced. split.
    + intros [H|[x [Hx Hf]]].
      * destruct (vertex_shader_file s) as [v|] eqn:Ev;
          destruct (pixel_shader_file s) as [p|] eqn:Ep; simpl in H;
          repeat match goal with
                 | H : _ \/ _ |- _ => destruct H
                 end; subst;
          try (left; assumption);
          right; exists s; (split; [now left | tauto]).
      * right. exists x. split; [now right | exact Hf].
    + intros [H|[x [[->|Hx] Hf]]].
      * left. destruct (vertex_shader_file s), (pixel_shader_file s); simpl; tauto.
      * left. destruct Hf as [Hf|Hf]; rewrite Hf;
          destruct (vertex_shader_file x), (pixel_shader_file x); simpl;
          try injection Hf as ->; tauto.
      * right. exists x. tauto.
Qed.

Lemma known_files_referenced (shaders : list shader_info) (f : pystr) :
  mem f (known_files shaders) = true <-> referenced shaders f.
Proof.
  rewrite mem_In. unfold known_files. rewrite known_files_fold. simpl. tauto.
Qed.

(** C4 as stated fails: for the pure-ASCII base name [A] the inferred tag
    is [ascii], which is neither the utf-8 tag nor any of the three
    recognized tags, and it is the tag the discovered entry is given. *)
Lemma detect_encoding_ascii_tag :
  detect_encoding PyCodec.encode PyCodec.decode (str "A") = "ascii"
  /\ "ascii" <> "utf-8"
  /\ ~ In (detect_encoding PyCodec.encode PyCodec.decode (str "A")) recognized_tags
  /\ map encoding
         (snd (reconcile PyCodec.encode PyCodec.decode []
                         [str "A_vs.fxc"; str "A_ps.fxc"]))
     = [Some "ascii"].
Proof.
  repeat split; try reflexivity; try discriminate.
  intros H. vm_compute in H. intuition discriminate.
Qed.

(** C4, amended. Every entry added by the discovery loop carries the tag
    [detect_encoding] computes for its base name; that tag is one of
    [ascii], [shift-jis], [utf-8], [latin-1]; it is [ascii] for every base
    name the ascii codec encodes, and one of the three recognized tags for
    every other base name. *)
Theorem detect_encoding_tags
        (encode : string -> pystr -> option bytes)
        (decode : string -> bytes -> option pystr)
        (shaders : list shader_info) (all_fxc_files : list pystr) (text : pystr) :
  Forall (discovered encode decode)
         (snd (reconcile encode decode shaders all_fxc_files))
  /\ In (detect_encoding encode decode text) inferred_tags
  /\ match encode "ascii" text with
     | Some _ => detect_encoding encode decode text = "ascii"
     | None => In (detect_encoding encode decode text) recognized_tags
     end.
Proof.
  split; [apply reconcile_discovered|].
  pose proof (detect_encoding_cases encode decode text) as H.
  split; [|exact H].
  destruct (encode "ascii" text); [rewrite H; now left | now right].
Qed.

(** C7. When every available blob-file name is already referenced by some
    entry of the persisted list, the reconcile step finds no new entry and
    returns the persisted list as it is. *)
Theorem reconcile_all_known
        (encode : string -> pystr -> option bytes)
        (decode : string -> bytes -> option pystr)
        (shaders : list shader_info) (all_fxc_files : list pystr) :
  (forall f, In f all_fxc_files -> referenced shaders f) ->
  reconcile encode decode shaders all_fxc_files = (shaders, []).
Proof.
  intros H. unfold reconcile.
  rewrite find_new_shaders_known; [reflexivity|].
  intros f Hf. apply known_files_referenced. now apply H.
Qed.

Lemma reconcile_all_known_witness :
  (forall f, In f [str "A_ps.fxc"; str "A_vs.fxc"] -> referenced [shader_A] f)
  /\ reconcile PyCodec.encode PyCodec.decode [shader_A]
               [str "A_ps.fxc"; str "A_vs.fxc"] = ([shader_A], []).
Proof.
  assert (H : forall f, In f [str "A_ps.fxc"; str "A_vs.fxc"]
                        -> referenced [shader_A] f).
  { intros f [<-|[<-|[]]]; exists shader_A; (split; [now left|]);
      [right | left]; reflexivity. }
  split; [exact H|].
  exact (reconcile_all_known PyCodec.encode PyCodec.decode [shader_A] _ H).
Defined.

(** ** The encode loop *)

Section EncodeLoop.

Variable encode : string -> pystr -> option bytes.
Variable files : pystr -> option bytes.

Lemma pack_shader_not_ready (st : bytes * nat) (shader : shader_info) :
  ready files shader = false -> pack_shader encode files st shader = Done st.
Proof.
  unfold ready, pack_shader. destruct st as [out n].
  destruct (name shader) as [nm|]; [|reflexivity].
  destruct (vertex_shader_file shader) as [v|]; [|reflexivity].
  destruct (pixel_shader_file shader) as [p|]; [|reflexivity].
  destruct (files v); [|reflexivity].
  destruct (files p); [discriminate | reflexivity].
Qed.

Lemma pack_loop_app (l1 l2 : list shader_info) (st : bytes * nat) :
  pack_loop encode files (l1 ++ l2) st
  = (st' <- pack_loop encode files l1 st ;; pack_loop encode files l2 st').
Proof.
  revert st. induction l1 as [|s l1 IH]; intros st; simpl; [reflexivity|].
  destruct (pack_shader encode files st s) as [st'|e]; simpl; [apply IH | reflexivity].
Qed.

Lemma pack_loop_skip (before after : list shader_info) (shader : shader_info)
      (st : bytes * nat) :
  ready files shader = false ->
  pack_loop encode files (before ++ shader :: after) st
  = pack_loop encode files (before ++ after) st.
Proof.
  intros H. rewrite !pack_loop_app.
  destruct (pack_loop encode files before st) as [st'|e]; simpl; [|reflexivity].
  now rewrite (pack_shader_not_ready st' shader H).
Qed.

Lemma pack_shader_count (st st' : bytes * nat) (shader : shader_info) :
  pack_shader encode files st shader = Done st' ->
  snd st' = snd st + (if ready files shader then 1 else 0).
Proof.
  destruct (ready files shader) eqn:R.
  - unfold ready in R. unfold pack_shader. destruct st as [out n].
    destruct (name shader) as [nm|]; [|discriminate].
    destruct (vertex_shader_file shader) as [v|]; [|discriminate].
    destruct (pixel_shader_file shader) as [p|]; [|discriminate].
    destruct (files v); [|discriminate].
    destruct (files p); [|discriminate].
    destruct (encode_name _ _ _); simpl; [|discriminate].
    destruct (write_record _ _ _ _); simpl; [|discriminate].
    intros [= <-]. reflexivity.
  - rewrite (pack_shader_not_ready st shader R). intros [= <-]. lia.
Qed.

Lemma pack_loop_count (shaders : list shader_info) (st st' : bytes * nat) :
  pack_loop encode files shaders st = Done st' ->
  snd st' = snd st + length (filter (ready files) shaders).
Proof.
  revert st. induction shaders as [|s rest IH]; intros st; simpl.
  - intros [= <-]. lia.
  - destruct (pack_shader encode files st s) as [st1|e] eqn:E; simpl; [|discriminate].
    intros H. apply IH in H. apply pack_shader_count in E.
    rewrite H, E. destruct (ready files s); simpl; lia.
Qed.

Lemma filter_length_le {A : Type} (f : A -> bool) (l : list A) :
  length (filter f l) <= length l.
Proof.
  induction l as [|x t IH]; simpl; [lia|]. destruct (f x); simpl; lia.
Qed.

End EncodeLoop.

(** ** Sizes on the wire *)

Lemma byte_to_of_N (n : N) : (n < 256)%N -> Byte.to_N (byte_of_N n) = n.
Proof.
  intros H. unfold byte_of_N. destruct (Byte.of_N n) as [b|] eqn:E.
  - now apply Byte.to_of_N.
  - apply Byte.of_N_None_iff in E. lia.
Qed.

Lemma le32_length (n : nat) : length (le32 n) = 4.
Proof. reflexivity. Qed.

Lemma struct_pack_I_le32 (n : nat) :
  (N.of_nat n < two_32)%N -> struct_pack_I n = Done (le32 n).
Proof.
  intros H. unfold struct_pack_I. apply N.ltb_lt in H. now rewrite H.
Qed.

Lemma struct_unpack_I_le32 (n : nat) :
  (N.of_nat n < two_32)%N -> struct_unpack_I (le32 n) = Done n.
Proof.
  intros H. unfold le32, struct_unpack_I, two_32 in *. f_equal.
  rewrite !byte_to_of_N by (apply N.mod_lt; discriminate).
  set (v := N.of_nat n) in *.
  assert (E : (v mod 256 + 256 * ((v / 256) mod 256)
               + 65536 * ((v / 65536) mod 256)
               + 16777216 * ((v / 16777216) mod 256) = v)%N).
  { pose proof (N.div_mod v 256 ltac:(discriminate)) as E0.
    pose proof (N.div_mod (v / 256) 256 ltac:(discriminate)) as E1.
    pose proof (N.div_mod (v / 65536) 256 ltac:(discriminate)) as E2.
    rewrite N.Div0.div_div in E1, E2.
    change (256 * 256)%N with 65536%N in E1.
    change (65536 * 256)%N with 16777216%N in E2.
    assert (L : (v / 16777216 < 256)%N).
    { apply N.Div0.div_lt_upper_bound. exact H. }
    rewrite (N.mod_small (v / 16777216) 256 L). lia. }
  rewrite E. apply Nat2N.id.
Qed.

(** ** Slices *)

Lemma slice_shift (p x : bytes) (lo hi : nat) :
  slice (p ++ x) (length p + lo) (length p + hi) = slice x lo hi.
Proof.
  unfold slice. rewrite skipn_app.
  rewrite (skipn_all2 p) by lia. simpl.
  f_equal; [lia | f_equal; lia].
Qed.

Lemma slice_head (x t : bytes) (hi : nat) :
  hi = length x -> slice (x ++ t) 0 hi = x.
Proof.
  intros ->. unfold slice. simpl. rewrite Nat.sub_0_r.
  rewrite firstn_app, Nat.sub_diag, firstn_all. simpl. apply app_nil_r.
Qed.

Lemma slice_short (x : bytes) (lo hi : nat) :
  lo < hi -> length x < hi -> length (slice x lo hi) < hi - lo.
Proof.
  intros Hlo H. unfold slice. rewrite length_firstn, length_skipn. lia.
Qed.

Lemma struct_unpack_I_short (b : bytes) :
  length b < 4 -> struct_unpack_I b = Raised StructError.
Proof.
  destruct b as [|b0 [|b1 [|b2 [|b3 [|b4 t]]]]]; simpl; intros H;
    try reflexivity; lia.
Qed.

Lemma slice_shift_to (p x : bytes) (lo hi lo' hi' : nat) :
  lo' = length p + lo -> hi' = length p + hi ->
  slice (p ++ x) lo' hi' = slice x lo hi.
Proof. intros -> ->. apply slice_shift. Qed.

Lemma slice_mid (p x t : bytes) (lo hi : nat) :
  lo = length p -> hi = lo + length x -> slice (p ++ x ++ t) lo hi = x.
Proof.
  intros -> ->.
  rewrite (slice_shift_to p (x ++ t) 0 (length x)) by lia.
  now apply slice_head.
Qed.

(** ** The decode loop *)

Section DecodeLoop.

Variable encode : string -> pystr -> option bytes.
Variable decode : string -> bytes -> option pystr.

Lemma unpack_record_shift (pre rest : bytes) (o : nat) :
  unpack_record encode decode (pre ++ rest) (length pre + o)
  = shift_offset (length pre) (unpack_record encode decode rest o).
Proof.
  unfold unpack_record, shift_offset.
  rewrite nth_error_app2 by lia.
  replace (length pre + o - length pre) with o by lia.
  destruct (nth_error rest o) as [b|]; [|reflexivity].
  cbv zeta. set (nl := N.to_nat (Byte.to_N b)).
  rewrite (slice_shift_to pre rest (o + 1) (o + 1 + nl)) by lia.
  destruct (decode_name decode _) as [name_raw|e]; [|reflexivity].
  cbn [bind].
  rewrite (slice_shift_to pre rest (o + 1 + nl) (o + 1 + nl + 4)) by lia.
  destruct (struct_unpack_I _) as [vs_size|e]; [|reflexivity].
  cbn [bind].
  rewrite (slice_shift_to pre rest (o + 1 + nl + 4 + vs_size)
                          (o + 1 + nl + 4 + vs_size + 4)) by lia.
  destruct (struct_unpack_I _) as [ps_size|e]; [|reflexivity].
  cbn [bind].
  rewrite (slice_shift_to pre rest (o + 1 + nl + 4)
                          (o + 1 + nl + 4 + vs_size)) by lia.
  rewrite (slice_shift_to pre rest (o + 1 + nl + 4 + vs_size + 4)
                          (o + 1 + nl + 4 + vs_size + 4 + ps_size)) by lia.
  do 2 f_equal. lia.
Qed.

Lemma unpack_loop_shift (fuel : nat) (pre rest : bytes) (o : nat)
      (acc : list extracted) :
  unpack_loop encode decode fuel (pre ++ rest) (length pre + o) acc
  = unpack_loop encode decode fuel rest o acc.
Proof.
  revert o acc. induction fuel as [|fuel IH]; intros o acc; simpl.
  - rewrite length_app.
    destruct (Nat.ltb_spec (length pre + o) (length pre + length rest));
      destruct (Nat.ltb_spec o (length rest)); try reflexivity; lia.
  - rewrite length_app.
    destruct (Nat.ltb_spec (length pre + o) (length pre + length rest));
      destruct (Nat.ltb_spec o (length rest)); try reflexivity; try lia.
    rewrite unpack_record_shift.
    destruct (unpack_record encode decode rest o) as [[shader o']|e];
      simpl; [apply IH | reflexivity].
Qed.

(** The record at the head of a buffer, in offsets of what follows the
    length byte. *)
Lemma unpack_record_head (lb : byte) (body : bytes) :
  unpack_record encode decode (lb :: body) 0
  = (let nl := N.to_nat (Byte.to_N lb) in
     name_raw <- decode_name decode (slice body 0 nl) ;;
     vs_size <- struct_unpack_I (slice body nl (nl + 4)) ;;
     ps_size <- struct_unpack_I
                  (slice body (nl + 4 + vs_size) (nl + 4 + vs_size + 4)) ;;
     Done (extract encode name_raw
             (xor_decrypt (slice body (nl + 4) (nl + 4 + vs_size)))
             (xor_decrypt (slice body (nl + 4 + vs_size + 4)
                                 (nl + 4 + vs_size + 4 + ps_size))),
           1 + (nl + 4 + vs_size + 4 + ps_size))).
Proof.
  unfold unpack_record. cbn [nth_error]. cbv zeta.
  set (nl := N.to_nat (Byte.to_N lb)).
  change (lb :: body) with ([lb] ++ body).
  rewrite (slice_shift_to [lb] body 0 nl) by (simpl; lia).
  destruct (decode_name decode _) as [name_raw|e]; [|reflexivity].
  cbn [bind].
  rewrite (slice_shift_to [lb] body nl (nl + 4)) by (simpl; lia).
  destruct (struct_unpack_I _) as [vs_size|e]; [|reflexivity].
  cbn [bind].
  rewrite (slice_shift_to [lb] body (nl + 4 + vs_size)
                          (nl + 4 + vs_size + 4)) by (simpl; lia).
  destruct (struct_unpack_I _) as [ps_size|e]; [|reflexivity].
  cbn [bind].
  rewrite (slice_shift_to [lb] body (nl + 4) (nl + 4 + vs_size))
    by (simpl; lia).
  rewrite (slice_shift_to [lb] body (nl + 4 + vs_size + 4)
                          (nl + 4 + vs_size + 4 + ps_size)) by (simpl; lia).
  unfold extract. do 2 f_equal.
Qed.

Lemma unpack_record_advance (data : bytes) (o o' : nat) (shader : extracted) :
  unpack_record encode decode data o = Done (shader, o') -> o < o'.
Proof.
  unfold unpack_record. destruct (nth_error data o); [|discriminate].
  cbv zeta.
  destruct (decode_name decode _); [|discriminate]. cbn [bind].
  destruct (struct_unpack_I _); [|discriminate]. cbn [bind].
  destruct (struct_unpack_I _); [|discriminate]. cbn [bind].
  intros [= _ <-]. lia.
Qed.

(** The bound on the iterations is never what stops the loop. *)
Lemma unpack_loop_fuel (fuel : nat) (data : bytes) (o : nat)
      (acc : list extracted) :
  length data - o <= fuel ->
  exists r, unpack_loop encode decode fuel data o acc = Some r.
Proof.
  revert o acc. induction fuel as [|fuel IH]; intros o acc H; simpl.
  - destruct (Nat.ltb_spec o (length data)); [lia | eauto].
  - destruct (Nat.ltb_spec o (length data)); [|eauto].
    destruct (unpack_record encode decode data o) as [[shader o']|e] eqn:E;
      [|eauto].
    apply unpack_record_advance in E. apply IH. lia.
Qed.

Lemma unpack_total (data : bytes) :
  exists r, unpack encode decode data = Some r.
Proof. apply unpack_loop_fuel. lia. Qed.

End DecodeLoop.

Section DecodeRecords.

Variable encode : string -> pystr -> option bytes.
Variable decode : string -> bytes -> option pystr.

(** A record whose name and vertex blob are whole and whose pixel-size
    field announces [ps_size] bytes, of which [ps] are present: all of
    them, or fewer when the buffer ends there. *)
Lemma unpack_record_wire (nb vs ps tail : bytes) (ps_size : nat) :
  length nb < 256 ->
  (N.of_nat (length vs) < two_32)%N ->
  (N.of_nat ps_size < two_32)%N ->
  length ps = ps_size \/ (length ps < ps_size /\ tail = []) ->
  unpack_record encode decode
    (byte_of_N (N.of_nat (length nb)) :: nb ++ le32 (length vs) ++ vs
       ++ le32 ps_size ++ ps ++ tail) 0
  = (name_raw <- decode_name decode nb ;;
     Done (extract encode name_raw (xor_decrypt vs) (xor_decrypt ps),
           1 + (length nb + 4 + length vs + 4 + ps_size))).
Proof.
  intros Hn Hv Hp Hps. rewrite unpack_record_head. cbv zeta.
  rewrite byte_to_of_N by lia. rewrite Nat2N.id.
  rewrite slice_head by reflexivity.
  destruct (decode_name decode nb) as [name_raw|e]; [|reflexivity].
  cbn [bind].
  rewrite (slice_mid nb (le32 (length vs))) by (rewrite ?le32_length; lia).
  rewrite (struct_unpack_I_le32 _ Hv). cbn [bind].
  replace (nb ++ le32 (length vs) ++ vs ++ le32 ps_size ++ ps ++ tail)
    with ((nb ++ le32 (length vs) ++ vs) ++ le32 ps_size ++ ps ++ tail)
    by (now rewrite <- !app_assoc).
  rewrite (slice_mid (nb ++ le32 (length vs) ++ vs) (le32 ps_size))
    by (rewrite ?length_app, ?le32_length; lia).
  rewrite (struct_unpack_I_le32 _ Hp). cbn [bind].
  replace ((nb ++ le32 (length vs) ++ vs) ++ le32 ps_size ++ ps ++ tail)
    with ((nb ++ le32 (length vs)) ++ vs ++ le32 ps_size ++ ps ++ tail)
    by (now rewrite <- !app_assoc).
  rewrite (slice_mid (nb ++ le32 (length vs)) vs)
    by (rewrite ?length_app, ?le32_length; lia).
  replace ((nb ++ le32 (length vs)) ++ vs ++ le32 ps_size ++ ps ++ tail)
    with ((nb ++ le32 (length vs) ++ vs ++ le32 ps_size) ++ ps ++ tail)
    by (now rewrite <- !app_assoc).
  assert (E : slice ((nb ++ le32 (length vs) ++ vs ++ le32 ps_size) ++ ps ++ tail)
                    (length nb + 4 + length vs + 4)
                    (length nb + 4 + length vs + 4 + ps_size) = ps).
  { destruct Hps as [<-|[Hlt ->]].
    - apply slice_mid; rewrite ?length_app, ?le32_length; lia.
    - rewrite app_nil_r.
      rewrite (slice_shift_to _ ps 0 ps_size)
        by (rewrite ?length_app, ?le32_length; lia).
      unfold slice. simpl. rewrite Nat.sub_0_r. apply firstn_all2. lia. }
  rewrite E. reflexivity.
Qed.

Lemma wire_bytes_length (w : wire) :
  length (wire_bytes w)
  = 1 + (length (wire_name w) + 4 + length (wire_vs w) + 4 + length (wire_ps w)).
Proof.
  unfold wire_bytes, record_bytes. cbn [length].
  rewrite !length_app, !le32_length. lia.
Qed.

Lemma unpack_record_whole (w : wire) (tail : bytes) :
  wire_fits w ->
  unpack_record encode decode (wire_bytes w ++ tail) 0
  = (name_raw <- decode_name decode (wire_name w) ;;
     Done (extract encode name_raw (xor_decrypt (wire_vs w))
                   (xor_decrypt (wire_ps w)),
           length (wire_bytes w) + 0)).
Proof.
  intros (Hn & Hv & Hp). rewrite wire_bytes_length, Nat.add_0_r.
  unfold wire_bytes, record_bytes.
  rewrite <- app_comm_cons, <- !app_assoc.
  apply unpack_record_wire; auto.
Qed.

(** The loop over a buffer that starts with whole records: one iteration
    for each, then the loop over what follows them. *)
Lemma unpack_loop_wires (ws : list wire) (tail : bytes) (k : nat)
      (acc : list extracted) :
  Forall wire_fits ws ->
  unpack_loop encode decode (length ws + k)
              (concat (map wire_bytes ws) ++ tail) 0 acc
  = match decode_wires encode decode ws with
    | Done shaders => unpack_loop encode decode k tail 0 (acc ++ shaders)
    | Raised e => Some (Raised e)
    end.
Proof.
  intros H. revert acc. induction H as [|w ws Hw Hws IH]; intros acc.
  - simpl. now rewrite app_nil_r.
  - cbn [length map concat decode_wires Nat.add unpack_loop].
    rewrite <- app_assoc.
    assert (L : (0 <? length (wire_bytes w ++ concat (map wire_bytes ws) ++ tail))
                = true).
    { apply Nat.ltb_lt. rewrite length_app, wire_bytes_length. lia. }
    rewrite L. rewrite (unpack_record_whole w _ Hw).
    destruct (decode_name decode (wire_name w)) as [name_raw|e];
      [|reflexivity].
    cbn [bind]. rewrite unpack_loop_shift, IH.
    destruct (decode_wires encode decode ws) as [shaders|e]; [|reflexivity].
    cbn [bind]. now rewrite <- app_assoc.
Qed.

Lemma concat_wires_length (ws : list wire) :
  length ws <= length (concat (map wire_bytes ws)).
Proof.
  induction ws as [|w ws IH]; [simpl; lia|].
  cbn [map concat length]. rewrite length_app, wire_bytes_length. lia.
Qed.

(** Whole records, and nothing else, decode to [decode_wires]. *)
Lemma unpack_wires (ws : list wire) :
  Forall wire_fits ws ->
  unpack encode decode (concat (map wire_bytes ws))
  = Some (decode_wires encode decode ws).
Proof.
  intros H. unfold unpack.
  pose proof (concat_wires_length ws) as L.
  replace (length (concat (map wire_bytes ws)))
    with (length ws + (length (concat (map wire_bytes ws)) - length ws)) at 1
    by lia.
  rewrite <- (app_nil_r (concat (map wire_bytes ws))) at 2.
  rewrite (unpack_loop_wires ws [] _ [] H).
  destruct (decode_wires encode decode ws) as [shaders|e]; [|reflexivity].
  destruct (length (concat (map wire_bytes ws)) - length ws); reflexivity.
Qed.

End DecodeRecords.

(** ** Records written by the encode loop *)

Section EncodeRecords.

Variable encode : string -> pystr -> option bytes.
Variable files : pystr -> option bytes.

Lemma write_record_wire (out : bytes) (w : wire) :
  wire_fits w ->
  write_record out (wire_name w) (wire_vs w) (wire_ps w)
  = Done (out ++ wire_bytes w).
Proof.
  intros (Hn & Hv & Hp). unfold write_record, bytearray_append.
  apply Nat.ltb_lt in Hn. rewrite Hn. cbn [bind].
  rewrite (struct_pack_I_le32 _ Hv). cbn [bind].
  rewrite (struct_pack_I_le32 _ Hp). cbn [bind].
  unfold wire_bytes, record_bytes. f_equal.
  rewrite <- !app_assoc. reflexivity.
Qed.

Lemma pack_shader_wire (out : bytes) (n : nat) (shader : shader_info) (w : wire) :
  shader_wire encode files shader = Some w ->
  wire_fits w ->
  pack_shader encode files (out, n) shader = Done (out ++ wire_bytes w, n + 1).
Proof.
  unfold shader_wire, pack_shader, blob, stored_encoding. intros Hw Hfit.
  destruct (name shader) as [nm|]; [|discriminate].
  destruct (vertex_shader_file shader) as [v|]; [|discriminate].
  destruct (files v) as [vs|]; [|discriminate].
  destruct (pixel_shader_file shader) as [p|]; [|discriminate].
  destruct (files p) as [ps|]; [|discriminate].
  destruct (encode_name encode _ _) as [nb|e]; [|discriminate].
  injection Hw as <-. cbn [bind].
  pose proof (write_record_wire out _ Hfit) as E. cbn [wire_name wire_vs wire_ps] in E.
  rewrite E. reflexivity.
Qed.

Lemma pack_loop_wires (shaders : list shader_info) (ws : list wire)
      (out : bytes) (n : nat) :
  Forall2 (fun shader w => shader_wire encode files shader = Some w /\ wire_fits w)
          shaders ws ->
  pack_loop encode files shaders (out, n)
  = Done (out ++ concat (map wire_bytes ws), n + length shaders).
Proof.
  intros H. revert out n. induction H as [|s w shaders ws [Hw Hfit] _ IH]; intros out n.
  - simpl. now rewrite app_nil_r, Nat.add_0_r.
  - cbn [pack_loop map concat length]. rewrite (pack_shader_wire out n s w Hw Hfit).
    cbn [bind]. rewrite IH. rewrite <- app_assoc. do 2 f_equal. lia.
Qed.

(** An entry that reaches the encoding step with a name of more than 255
    encoded bytes raises at [output_data.append]. *)
Lemma pack_shader_name_too_long (st : bytes * nat) (shader : shader_info)
      (nm : pystr) (nb : bytes) :
  ready files shader = true ->
  name shader = Some nm ->
  encode_name encode (stored_encoding shader) (null_terminated nm) = Done nb ->
  255 < length nb ->
  pack_shader encode files st shader = Raised ValueError.
Proof.
  unfold ready, pack_shader, stored_encoding. destruct st as [out n].
  intros R Hn E L. rewrite Hn in R |- *.
  destruct (vertex_shader_file shader) as [v|]; [|discriminate].
  destruct (pixel_shader_file shader) as [p|]; [|discriminate].
  destruct (files v) as [vs|]; [|discriminate].
  destruct (files p) as [ps|]; [|discriminate].
  rewrite E. cbn [bind]. unfold write_record, bytearray_append.
  destruct (Nat.ltb_spec (length nb) 256); [lia | reflexivity].
Qed.

End EncodeRecords.

Lemma pack_loop_filter_ready (encode : string -> pystr -> option bytes)
      (files : pystr -> option bytes) (shaders : list shader_info)
      (st : bytes * nat) :
  pack_loop encode files (filter (ready files) shaders) st
  = pack_loop encode files shaders st.
Proof.
  revert st. induction shaders as [|s rest IH]; intros st; [reflexivity|].
  cbn [filter]. destruct (ready files s) eqn:R.
  - cbn [pack_loop]. destruct (pack_shader encode files st s); [apply IH | reflexivity].
  - cbn [pack_loop]. rewrite (pack_shader_not_ready encode files st s R). apply IH.
Qed.

Lemma missing_blob_not_ready (files : pystr -> option bytes) (shader : shader_info)
      (v p : pystr) :
  vertex_shader_file shader = Some v ->
  pixel_shader_file shader = Some p ->
  files v = None \/ files p = None ->
  ready files shader = false.
Proof.
  unfold ready. intros -> -> H. destruct (name shader); [|reflexivity].
  destruct H as [-> | ->]; [reflexivity | now destruct (files v)].
Qed.

Lemma pack_unfold (encode : string -> pystr -> option bytes)
      (decode : string -> bytes -> option pystr)
      (shaders : list shader_info) (all_fxc_files : list pystr)
      (files : pystr -> option bytes) :
  pack encode decode (Some shaders) all_fxc_files files
  = match pack_loop encode files
            (fst (reconcile encode decode shaders all_fxc_files)) ([], 0) with
    | Raised e => Aborted (fst (reconcile encode decode shaders all_fxc_files)) e
    | Done (output_data, packed_count) =>
        Packed (fst (reconcile encode decode shaders all_fxc_files))
               output_data packed_count
    end.
Proof.
  unfold pack. now destruct (reconcile encode decode shaders all_fxc_files).
Qed.

(** C5 as stated fails: in this index the vertex file of the first entry
    is missing, and the run does not complete: the second entry has a name
    of 257 encoded bytes and [pack] ends with [ValueError], no output file
    written. And where the run completes, what it reports does not tell
    the total: the index with the one skipped entry ends with the output
    and the count of the empty index. *)
Lemma pack_with_missing_blob_may_abort :
  dir_A (str "B_vs.fxc") = None
  /\ py_pack (Some [shader_B; shader_long]) [] dir_A
     = Aborted [shader_B; shader_long] ValueError
  /\ py_pack (Some [shader_B]) [] dir_A = Packed [shader_B] [] 0
  /\ py_pack (Some []) [] dir_A = Packed [] [] 0.
Proof. repeat split; vm_compute; reflexivity. Qed.

(** C5, amended. An entry whose vertex or pixel blob file is missing adds
    no bytes and no count; the run over the metadata is the run over the
    metadata without that entry, so it goes on with the remaining entries;
    and when each remaining entry that is not skipped encodes within the
    format's bounds, [pack] completes, writes their records in order and
    counts them, fewer than the entries of the metadata. *)
Theorem pack_skips_missing_blob
        (encode : string -> pystr -> option bytes)
        (decode : string -> bytes -> option pystr)
        (files : pystr -> option bytes)
        (shaders : list shader_info) (all_fxc_files : list pystr)
        (before after : list shader_info) (shader : shader_info) (v p : pystr) :
  fst (reconcile encode decode shaders all_fxc_files) = before ++ shader :: after ->
  vertex_shader_file shader = Some v ->
  pixel_shader_file shader = Some p ->
  files v = None \/ files p = None ->
  (forall st, pack_shader encode files st shader = Done st)
  /\ pack_loop encode files (before ++ shader :: after) ([], 0)
     = pack_loop encode files (before ++ after) ([], 0)
  /\ forall ws,
      Forall2 (fun s w => shader_wire encode files s = Some w /\ wire_fits w)
              (filter (ready files) (before ++ after)) ws ->
      pack encode decode (Some shaders) all_fxc_files files
      = Packed (before ++ shader :: after) (concat (map wire_bytes ws)) (length ws)
      /\ length ws < length (before ++ shader :: after).
Proof.
  intros Hrec Hv Hp Hmiss.
  pose proof (missing_blob_not_ready files shader v p Hv Hp Hmiss) as R.
  split; [intros st; now apply pack_shader_not_ready|].
  split; [now apply pack_loop_skip|].
  intros ws Hws.
  pose proof (Forall2_length Hws) as L.
  rewrite pack_unfold, Hrec, (pack_loop_skip encode files before after shader _ R).
  rewrite <- pack_loop_filter_ready.
  pose proof (pack_loop_wires encode files _ ws [] 0 Hws) as E.
  match goal with
  | |- context [pack_loop encode files ?l ?s] =>
      assert (E' : pack_loop encode files l s
                   = Done (concat (map wire_bytes ws), length ws))
        by (rewrite <- L; exact E)
  end.
  rewrite E'. split; [reflexivity|].
  rewrite <- L.
  pose proof (filter_length_le (ready files) (before ++ after)) as F.
  rewrite !length_app in *. simpl. lia.
Qed.

Lemma pack_skips_missing_blob_witness :
  (dir_A (str "B_vs.fxc") = None \/ dir_A (str "B_ps.fxc") = None)
  /\ py_pack (Some [shader_A; shader_B]) [] dir_A
     = Packed [shader_A; shader_B] (wire_bytes wire_A) 1.
Proof.
  assert (Hmiss : dir_A (str "B_vs.fxc") = None \/ dir_A (str "B_ps.fxc") = None)
    by (left; reflexivity).
  split; [exact Hmiss|].
  destruct (pack_skips_missing_blob PyCodec.encode PyCodec.decode dir_A
              [shader_A; shader_B] [] [shader_A] [] shader_B
              (str "B_vs.fxc") (str "B_ps.fxc")
              eq_refl eq_refl eq_refl Hmiss) as (_ & _ & H).
  destruct (H [wire_A]) as [E _].
  - constructor; [|constructor]. split; [reflexivity|].
    unfold wire_fits, two_32. simpl. lia.
  - rewrite <- (app_nil_r (wire_bytes wire_A)). exact E.
Defined.

(** C3. An entry that reaches the encoding step with a name whose encoded
    form is longer than 255 bytes raises [ValueError] when its length byte
    is appended; the loop stops there (or earlier, when an entry before it
    raises), and [pack] ends with the exception, before the output file is
    written. *)
Theorem pack_name_too_long
        (encode : string -> pystr -> option bytes)
        (decode : string -> bytes -> option pystr)
        (files : pystr -> option bytes)
        (shaders : list shader_info) (all_fxc_files : list pystr)
        (before after : list shader_info) (shader : shader_info)
        (nm : pystr) (nb : bytes) :
  fst (reconcile encode decode shaders all_fxc_files) = before ++ shader :: after ->
  ready files shader = true ->
  name shader = Some nm ->
  encode_name encode (stored_encoding shader) (null_terminated nm) = Done nb ->
  255 < length nb ->
  (forall st, pack_shader encode files st shader = Raised ValueError)
  /\ pack_loop encode files (before ++ shader :: after) ([], 0)
     = match pack_loop encode files before ([], 0) with
       | Done _ => Raised ValueError
       | Raised e => Raised e
       end
  /\ exists e, pack encode decode (Some shaders) all_fxc_files files
               = Aborted (before ++ shader :: after) e.
Proof.
  intros Hrec R Hn E L.
  assert (P : forall st, pack_shader encode files st shader = Raised ValueError).
  { intros st. now apply (pack_shader_name_too_long encode files st shader nm nb). }
  assert (Q : pack_loop encode files (before ++ shader :: after) ([], 0)
              = match pack_loop encode files before ([], 0) with
                | Done _ => Raised ValueError
                | Raised e => Raised e
                end).
  { rewrite pack_loop_app.
    destruct (pack_loop encode files before ([], 0)) as [st|e]; [|reflexivity].
    cbn [bind pack_loop]. now rewrite P. }
  split; [exact P|]. split; [exact Q|].
  rewrite pack_unfold, Hrec, Q.
  destruct (pack_loop encode files before ([], 0)) as [st|e]; eauto.
Qed.

Lemma pack_name_too_long_witness :
  255 < length (map byte_of_N (repeat 65%N 256 ++ [NUL]))
  /\ exists e, py_pack (Some [shader_A; shader_long]) [] dir_A
               = Aborted [shader_A; shader_long] e.
Proof.
  assert (L : 255 < length (map byte_of_N (repeat 65%N 256 ++ [NUL])))
    by (vm_compute; lia).
  split; [exact L|].
  exact (proj2 (proj2
    (pack_name_too_long PyCodec.encode PyCodec.decode dir_A
       [shader_A; shader_long] [] [shader_A] [] shader_long
       (repeat 65%N 256) (map byte_of_N (repeat 65%N 256 ++ [NUL]))
       eq_refl eq_refl eq_refl eq_refl L))).
Defined.

(** ** Buffers that end inside a record *)

Section CutRecords.

Variable encode : string -> pystr -> option bytes.
Variable decode : string -> bytes -> option pystr.

Lemma unpack_loop_end (fuel : nat) (data : bytes) (o : nat)
      (acc : list extracted) :
  length data <= o ->
  unpack_loop encode decode fuel data o acc = Some (Done acc).
Proof.
  intros H. destruct fuel; simpl;
    destruct (Nat.ltb_spec o (length data)); try reflexivity; lia.
Qed.

Lemma unpack_record_cut (lb : byte) (body : bytes) :
  cut_before_pixels lb body ->
  exists e, unpack_record encode decode (lb :: body) 0 = Raised e.
Proof.
  unfold cut_before_pixels. cbv zeta. intros H.
  rewrite unpack_record_head. cbv zeta.
  set (nl := N.to_nat (Byte.to_N lb)) in *.
  destruct (decode_name decode _) as [name_raw|e]; [|eexists; reflexivity].
  cbn [bind]. destruct H as [H|[vs_size [E H]]].
  - rewrite struct_unpack_I_short; [eexists; reflexivity|].
    pose proof (slice_short body nl (nl + 4)). lia.
  - rewrite E. cbn [bind].
    rewrite struct_unpack_I_short; [eexists; reflexivity|].
    pose proof (slice_short body (nl + 4 + vs_size) (nl + 4 + vs_size + 4)).
    lia.
Qed.

(** The loop over whole records followed by one more, unfinished one. *)
Lemma unpack_after_wires (ws : list wire) (lb : byte) (body : bytes) :
  Forall wire_fits ws ->
  unpack encode decode (concat (map wire_bytes ws) ++ lb :: body)
  = match decode_wires encode decode ws with
    | Done shaders =>
        match unpack_record encode decode (lb :: body) 0 with
        | Done (shader, o) =>
            unpack_loop encode decode
              (length (concat (map wire_bytes ws)) + length body - length ws)
              (lb :: body) o (shaders ++ [shader])
        | Raised e => Some (Raised e)
        end
    | Raised e => Some (Raised e)
    end.
Proof.
  intros H. unfold unpack.
  pose proof (concat_wires_length ws) as L.
  rewrite length_app. cbn [length].
  replace (length (concat (map wire_bytes ws)) + S (length body))
    with (length ws
          + S (length (concat (map wire_bytes ws)) + length body - length ws))
    by lia.
  rewrite (unpack_loop_wires encode decode ws _ _ [] H).
  destruct (decode_wires encode decode ws) as [shaders|e]; reflexivity.
Qed.

End CutRecords.

(** C2 as stated fails: in this buffer the pixel-size field of the only
    record announces three bytes and one is present, yet the decode
    completes normally, with a pixel blob of one byte. *)
Lemma unpack_cut_pixels_completes :
  struct_unpack_I [x03; x00; x00; x00] = Done 3
  /\ exists shader,
      py_unpack [x01; x41; x00; x00; x00; x00; x03; x00; x00; x00; xcd]
      = Some (Done [shader])
      /\ name (info shader) = Some (str "A")
      /\ vs_data shader = []
      /\ ps_data shader = [x51].
Proof.
  split; [reflexivity|].
  eexists. split; [vm_compute; reflexivity|]. repeat split.
Qed.

(** C2, amended. After any number of whole records, a last record that
    stops before its pixel bytes (its name, vertex-size field, vertex bytes
    or pixel-size field run past the end of the buffer) makes the decode
    raise, so it does not complete; a last record that stops inside its
    pixel bytes does not: apart from a name that fails to decode, the
    decode completes and gives that record the pixel bytes present. *)
Theorem unpack_cut_record
        (encode : string -> pystr -> option bytes)
        (decode : string -> bytes -> option pystr)
        (ws : list wire) (lb : byte) (body nb vs ps : bytes) (ps_size : nat) :
  Forall wire_fits ws ->
  (cut_before_pixels lb body ->
   exists e, unpack encode decode (concat (map wire_bytes ws) ++ lb :: body)
             = Some (Raised e))
  /\ (length nb < 256 ->
      (N.of_nat (length vs) < two_32)%N ->
      (N.of_nat ps_size < two_32)%N ->
      length ps < ps_size ->
      unpack encode decode
        (concat (map wire_bytes ws)
           ++ byte_of_N (N.of_nat (length nb)) :: nb ++ le32 (length vs) ++ vs
           ++ le32 ps_size ++ ps)
      = Some (shaders <- decode_wires encode decode ws ;;
              name_raw <- decode_name decode nb ;;
              Done (shaders ++ [extract encode name_raw (xor_decrypt vs)
                                        (xor_decrypt ps)]))).
Proof.
  intros H. split.
  - intros Hcut. rewrite (unpack_after_wires encode decode ws lb body H).
    destruct (decode_wires encode decode ws) as [shaders|e]; [|eauto].
    destruct (unpack_record_cut encode decode lb body Hcut) as [e E].
    rewrite E. eauto.
  - intros Hn Hv Hp Hps.
    rewrite (unpack_after_wires encode decode ws _ _ H).
    destruct (decode_wires encode decode ws) as [shaders|e]; [|reflexivity].
    cbn [bind].
    pose proof (unpack_record_wire encode decode nb vs ps [] ps_size
                  Hn Hv Hp (or_intror (conj Hps eq_refl))) as E.
    rewrite app_nil_r in E. rewrite E.
    destruct (decode_name decode nb) as [name_raw|e]; [|reflexivity].
    cbn [bind]. apply unpack_loop_end.
    cbn [length]. rewrite !length_app, !le32_length. lia.
Qed.

Lemma unpack_cut_record_witness :
  Forall wire_fits [wire_A]
  /\ cut_before_pixels x01 [x41; x00; x00; x00; x00; x03; x00; x00]
  /\ (exists e, py_unpack (wire_bytes wire_A
                           ++ [x01; x41; x00; x00; x00; x00; x03; x00; x00])
                = Some (Raised e))
  /\ exists shaders,
      py_unpack (wire_bytes wire_A
                 ++ [x01; x41; x00; x00; x00; x00; x03; x00; x00; x00; xcd])
      = Some (Done shaders)
      /\ map ps_data shaders = [[]; [x51]].
Proof.
  assert (Hfit : Forall wire_fits [wire_A]).
  { constructor; [|constructor]. unfold wire_fits, two_32. simpl. lia. }
  assert (Hcut : cut_before_pixels x01 [x41; x00; x00; x00; x00; x03; x00; x00]).
  { right. exists 0. split; [reflexivity | simpl; lia]. }
  destruct (unpack_cut_record PyCodec.encode PyCodec.decode [wire_A] x01
              [x41; x00; x00; x00; x00; x03; x00; x00] [x41] [] [xcd] 3 Hfit)
    as [P1 P2].
  split; [exact Hfit|]. split; [exact Hcut|]. split.
  - destruct (P1 Hcut) as [e E]. exists e.
    cbn [map concat] in E. rewrite app_nil_r in E. exact E.
  - eexists. split.
    + cbn [map concat] in P2. rewrite app_nil_r in P2.
      apply P2; unfold two_32; simpl; lia.
    + reflexivity.
Defined.

(** ** Encoding, then decoding *)

Section RoundTrip.

Variable encode : string -> pystr -> option bytes.
Variable decode : string -> bytes -> option pystr.
Variable files : pystr -> option bytes.

Lemma round_trips_wires (shaders : list shader_info) :
  Forall (round_trips encode decode files) shaders ->
  exists ws exs,
    Forall2 (fun s w => shader_wire encode files s = Some w /\ wire_fits w)
            shaders ws
    /\ Forall wire_fits ws
    /\ decode_wires encode decode ws = Done exs
    /\ map extracted_view exs = map (shader_view files) shaders.
Proof.
  induction 1 as [|s shaders Hs _ IH].
  - exists [], []. repeat split; constructor.
  - destruct IH as (ws & exs & Hlink & Hfit & Hdec & Hview).
    destruct Hs as (nm & vs & ps & nb & Hn & Hvs & Hps & Lv & Lp & Henc & Ln & Hback).
    set (w := {| wire_name := nb; wire_vs := xor_encrypt vs;
                 wire_ps := xor_encrypt ps |}).
    assert (Hw : shader_wire encode files s = Some w).
    { unfold shader_wire. now rewrite Hn, Hvs, Hps, Henc. }
    assert (Hwfit : wire_fits w).
    { unfold wire_fits, w, xor_encrypt. cbn [wire_name wire_vs wire_ps].
      now rewrite !length_map. }
    exists (w :: ws),
      (extract encode (null_terminated nm) (xor_decrypt (wire_vs w))
               (xor_decrypt (wire_ps w)) :: exs).
    split; [constructor; auto|]. split; [constructor; auto|]. split.
    + cbn [decode_wires]. cbn [wire_name w]. rewrite Hback. cbn [bind].
      now rewrite Hdec.
    + cbn [map]. rewrite Hview. f_equal.
      unfold extracted_view, shader_view, extract, w, xor_decrypt, xor_encrypt.
      cbn [info name vs_data ps_data wire_vs wire_ps].
      now rewrite Hn, Hvs, Hps, !map_xor_9C_twice.
Qed.

End RoundTrip.

(** C1 as stated fails: the entry named U+00E9 with the utf-8 tag encodes
    to the three name bytes C3 A9 00, which fit the length byte; the decoder
    tries shift-jis first, which reads C3 and A9 as two half-width katakana,
    so the decoded name is U+FF83 U+FF69 and not the name that was encoded. *)
Lemma round_trip_fails_on_utf8_name :
  encode_name PyCodec.encode "utf-8" (null_terminated [233%N])
  = Done [xc3; xa9; x00]
  /\ exists output_data exs,
      pack_loop PyCodec.encode dir_A [shader_e_acute] ([], 0)
      = Done (output_data, 1)
      /\ py_unpack output_data = Some (Done exs)
      /\ map (fun x => name (info x)) exs = [Some [65411; 65385; 0]%N]
      /\ map extracted_view exs <> map (shader_view dir_A) [shader_e_acute].
Proof.
  split; [reflexivity|].
  eexists. eexists. split; [vm_compute; reflexivity|].
  split; [vm_compute; reflexivity|].
  split; [reflexivity|]. vm_compute. discriminate.
Qed.

(** C1, amended. For every ordered list of entries whose two blobs exist
    and are shorter than 2^32 bytes, whose null-terminated name encodes to
    at most 255 bytes and whose encoded name the decoder's chain (shift-jis,
    then utf-8, then latin-1) reads back as that name, the encode loop
    packs every entry, and decoding its buffer yields, in the same order,
    the null-terminated names and the same vertex and pixel blobs. *)
Theorem pack_unpack_round_trip
        (encode : string -> pystr -> option bytes)
        (decode : string -> bytes -> option pystr)
        (files : pystr -> option bytes) (shaders : list shader_info) :
  Forall (round_trips encode decode files) shaders ->
  exists output_data exs,
    pack_loop encode files shaders ([], 0) = Done (output_data, length shaders)
    /\ unpack encode decode output_data = Some (Done exs)
    /\ map extracted_view exs = map (shader_view files) shaders.
Proof.
  intros H.
  destruct (round_trips_wires encode decode files shaders H)
    as (ws & exs & Hlink & Hfit & Hdec & Hview).
  exists (concat (map wire_bytes ws)), exs.
  split; [exact (pack_loop_wires encode files shaders ws [] 0 Hlink)|].
  split; [|exact Hview].
  now rewrite (unpack_wires encode decode ws Hfit), Hdec.
Qed.

Lemma pack_unpack_round_trip_witness :
  Forall (round_trips PyCodec.encode PyCodec.decode dir_A) [shader_A]
  /\ exists output_data exs,
      pack_loop PyCodec.encode dir_A [shader_A] ([], 0) = Done (output_data, 1)
      /\ py_unpack output_data = Some (Done exs)
      /\ map extracted_view exs = map (shader_view dir_A) [shader_A].
Proof.
  assert (H : Forall (round_trips PyCodec.encode PyCodec.decode dir_A) [shader_A]).
  { constructor; [|constructor].
    exists (str "A"), [x01; x02], [], [x41; x00].
    repeat split; try reflexivity; unfold two_32; simpl; lia. }
  split; [exact H|].
  exact (pack_unpack_round_trip PyCodec.encode PyCodec.decode dir_A [shader_A] H).
Defined.


(* ================================================================== *)
(** * Further properties of the tool *)

(** ** The XOR layer and the sanitizers *)

Lemma xor_9C_moves (b : byte) : xor_9C b <> b.
Proof. destruct b; discriminate. Qed.

(** X1. The XOR layer keeps the length of a blob and leaves no byte as it
    was: the obfuscated blob differs from the plain one at every index. *)
Theorem xor_encrypt_changes_every_byte (data : bytes) :
  length (xor_encrypt data) = length data
  /\ length (xor_decrypt data) = length data
  /\ Forall2 (fun plain hidden => hidden <> plain) data (xor_encrypt data).
Proof.
  unfold xor_encrypt, xor_decrypt. rewrite length_map. repeat split.
  induction data as [|b t IH]; simpl; constructor; [apply xor_9C_moves | exact IH].
Qed.

Lemma sanitize_spec_clean (s : pystr) :
  Forall (fun c => is_reserved c = false /\ c <> NUL) (sanitize_spec s)
  /\ strip (sanitize_spec s) = sanitize_spec s
  /\ sanitize_spec s <> [].
Proof.
  unfold sanitize_spec.
  set (kept := filter (fun c => negb (c =? NUL)%N) s).
  change (fun c => if is_reserved c then 95%N else c) with shown.
  assert (Hkept : Forall (fun c => c <> NUL) (strip kept)).
  { apply strip_Forall, Forall_forall. intros c Hc.
    apply filter_In in Hc. destruct Hc as [_ Hc].
    apply negb_true_iff in Hc. now apply N.eqb_neq. }
  assert (Hclean : Forall (fun c => is_reserved c = false /\ c <> NUL)
                          (map shown (strip kept))).
  { apply Forall_forall. intros c Hc. apply in_map_iff in Hc.
    destruct Hc as [d [<- Hd]]. rewrite Forall_forall in Hkept.
    pose proof (shown_clean d (Hkept d Hd)) as E.
    apply orb_false_iff in E. destruct E as [E1 E2].
    split; [exact E1 | now apply N.eqb_neq]. }
  assert (Htrim : strip (map shown (strip kept)) = map shown (strip kept)).
  { now rewrite (strip_map shown _ shown_isspace), strip_idem. }
  destruct (map shown (strip kept)) as [|c t] eqn:E.
  - split; [|split; [reflexivity | discriminate]].
    apply Forall_forall. intros c Hc. apply forallb_forall with (x := c)
      (f := fun c => negb (is_reserved c) && negb (c =? NUL)%N) in Hc;
      [|reflexivity].
    apply andb_true_iff in Hc. destruct Hc as [H1 H2].
    apply negb_true_iff in H1, H2. split; [exact H1 | now apply N.eqb_neq].
  - split; [exact Hclean|]. split; [exact Htrim | discriminate].
Qed.

(** X2. Sanitizing is idempotent: a sanitized name is a fixed point of
    [sanitize_filename] (and so of [sanitize_name]), so the file names
    written at unpack time are stable under a second sanitization. *)
Theorem sanitize_filename_idempotent (s : pystr) :
  sanitize_filename (sanitize_filename s) = sanitize_filename s
  /\ sanitize_name (sanitize_filename s) = sanitize_filename s.
Proof.
  assert (H : sanitize_filename (sanitize_filename s) = sanitize_filename s).
  { rewrite (sanitize_filename_spec s).
    destruct (sanitize_spec_clean s) as (Hc & Ht & Hn).
    set (r := sanitize_spec s) in *.
    rewrite sanitize_filename_spec. unfold sanitize_spec.
    assert (Hk : filter (fun c => negb (c =? NUL)%N) r = r).
    { clear Ht Hn. induction Hc as [|c t [_ Hc] _ IH]; simpl; [reflexivity|].
      apply N.eqb_neq in Hc. rewrite Hc. simpl. now rewrite IH. }
    rewrite Hk, Ht.
    assert (Hm : map (fun c => if is_reserved c then 95%N else c) r = r).
    { clear Ht Hn Hk. induction Hc as [|c t [Hc _] _ IH]; simpl; [reflexivity|].
      now rewrite Hc, IH. }
    rewrite Hm. destruct r; [contradiction | reflexivity]. }
  split; exact H.
Qed.

(** ** The decode loop: progress and the shape of its entries *)

Section DecodeInvariant.

Variable encode : string -> pystr -> option bytes.
Variable decode : string -> bytes -> option pystr.

Lemma struct_unpack_I_done (b : bytes) (n : nat) :
  struct_unpack_I b = Done n -> length b = 4.
Proof.
  destruct b as [|b0 [|b1 [|b2 [|b3 [|b4 t]]]]]; simpl; intros H;
    try discriminate; reflexivity.
Qed.

Lemma slice_length_le (x : bytes) (lo hi : nat) :
  length (slice x lo hi) <= length x - lo.
Proof. unfold slice. rewrite length_firstn, length_skipn. lia. Qed.

Lemma extract_unpacked_entry (name_raw : pystr) (vs ps : bytes) :
  unpacked_entry encode (extract encode name_raw vs ps).
Proof.
  exists name_raw, (encoding_used encode name_raw).
  unfold extract, encoding_used, recognized_tags. cbn [info name encoding
    vertex_shader_file pixel_shader_file].
  repeat split;
    destruct (encode "shift-jis" name_raw) eqn:E1;
    try destruct (encode "utf-8" name_raw) eqn:E2;
    simpl; try tauto; left; congruence.
Qed.

Lemma unpack_record_done (data : bytes) (o o' : nat) (shader : extracted) :
  unpack_record encode decode data o = Done (shader, o') ->
  o + 9 <= length data /\ o + 9 <= o' /\ unpacked_entry encode shader.
Proof.
  unfold unpack_record. destruct (nth_error data o) as [b|]; [|discriminate].
  cbv zeta. set (nl := N.to_nat (Byte.to_N b)).
  destruct (decode_name decode _) as [name_raw|e]; [|discriminate]. cbn [bind].
  destruct (struct_unpack_I _) as [vs_size|e] eqn:Ev; [|discriminate]. cbn [bind].
  destruct (struct_unpack_I _) as [ps_size|e] eqn:Ep in |- *; [|discriminate].
  cbn [bind]. intros [= <- <-].
  apply struct_unpack_I_done in Ep.
  pose proof (slice_length_le data (o + 1 + nl + 4 + vs_size)
                              (o + 1 + nl + 4 + vs_size + 4)) as L.
  split; [lia|]. split; [lia|]. apply extract_unpacked_entry.
Qed.

Lemma unpack_loop_invariant (fuel : nat) (data : bytes) (o : nat)
      (acc shaders : list extracted) :
  unpack_loop encode decode fuel data o acc = Some (Done shaders) ->
  exists new,
    shaders = acc ++ new
    /\ Forall (unpacked_entry encode) new
    /\ 9 * length new <= length data - o.
Proof.
  revert o acc. induction fuel as [|fuel IH]; intros o acc; simpl.
  - destruct (Nat.ltb_spec o (length data)) as [Hlt|Hge]; [discriminate|].
    intros [= <-]. exists []. rewrite app_nil_r. repeat split; [constructor | simpl; lia].
  - destruct (Nat.ltb_spec o (length data)) as [Hlt|Hge].
    + destruct (unpack_record encode decode data o) as [[x o']|e] eqn:E;
        [|discriminate].
      intros H. apply IH in H. destruct H as (new & -> & Hnew & Hlen).
      apply unpack_record_done in E. destruct E as (E1 & E2 & E3).
      exists (x :: new). rewrite <- app_assoc. repeat split.
      * now constructor.
      * simpl. lia.
    + intros [= <-]. exists []. rewrite app_nil_r.
      repeat split; [constructor | simpl; lia].
Qed.

End DecodeInvariant.

(** X3. The decode loop always stops, with a result or an exception, and
    a decode that completes has read at least nine bytes of the buffer for
    each entry it returns. *)
Theorem unpack_terminates_nine_bytes_per_entry
        (encode : string -> pystr -> option bytes)
        (decode : string -> bytes -> option pystr) (data : bytes) :
  exists r,
    unpack encode decode data = Some r
    /\ match r with
       | Done shaders => 9 * length shaders <= length data
       | Raised _ => True
       end.
Proof.
  destruct (unpack_total encode decode data) as [r E]. exists r.
  split; [exact E|]. destruct r as [shaders|e]; [|exact I].
  apply unpack_loop_invariant in E. destruct E as (new & -> & _ & L).
  simpl. lia.
Qed.

(** X4. Every entry a completed decode stores has its four keys: the
    decoded name, a tag among shift-jis, utf-8 and latin-1 (one that encodes
    the decoded name, or latin-1), and the two file names made of the
    sanitized name and the suffixes [_vs.fxc] and [_ps.fxc]. *)
Theorem unpack_entries_complete
        (encode : string -> pystr -> option bytes)
        (decode : string -> bytes -> option pystr)
        (data : bytes) (shaders : list extracted) :
  unpack encode decode data = Some (Done shaders) ->
  Forall (unpacked_entry encode) shaders.
Proof.
  intros E. apply unpack_loop_invariant in E.
  destruct E as (new & -> & H & _). exact H.
Qed.

Lemma unpack_entries_complete_witness :
  py_unpack (wire_bytes wire_A)
  = Some (Done [extract PyCodec.encode (str "A" ++ [NUL]) [x01; x02] []])
  /\ Forall (unpacked_entry PyCodec.encode)
            [extract PyCodec.encode (str "A" ++ [NUL]) [x01; x02] []].
Proof.
  assert (E : py_unpack (wire_bytes wire_A)
              = Some (Done [extract PyCodec.encode (str "A" ++ [NUL])
                                    [x01; x02] []]))
    by (vm_compute; reflexivity).
  split; [exact E|].
  exact (unpack_entries_complete PyCodec.encode PyCodec.decode _ _ E).
Defined.


(** ** Whole records *)

Section WholeRecords.

Variable encode : string -> pystr -> option bytes.
Variable decode : string -> bytes -> option pystr.

Hypothesis latin1_total : forall b, decode "latin-1" b <> None.

Lemma decode_name_total (nb : bytes) :
  exists name_raw, decode_name decode nb = Done name_raw.
Proof.
  unfold decode_name.
  destruct (decode "shift-jis" nb); [eauto|].
  destruct (decode "utf-8" nb); [eauto|].
  destruct (decode "latin-1" nb) eqn:E; [eauto|].
  now apply latin1_total in E.
Qed.

Lemma decode_wires_total (ws : list wire) :
  exists shaders, decode_wires encode decode ws = Done shaders.
Proof.
  induction ws as [|w ws [shaders IH]]; [now exists []|].
  cbn [decode_wires]. destruct (decode_name_total (wire_name w)) as [n ->].
  cbn [bind]. rewrite IH. cbn [bind]. eauto.
Qed.

End WholeRecords.

Lemma decode_wires_decoded_from
      (encode : string -> pystr -> option bytes)
      (decode : string -> bytes -> option pystr)
      (ws : list wire) (shaders : list extracted) :
  decode_wires encode decode ws = Done shaders ->
  Forall2 (fun w x =>
             exists name_raw,
               decode_name decode (wire_name w) = Done name_raw
               /\ x = extract encode name_raw (xor_decrypt (wire_vs w))
                              (xor_decrypt (wire_ps w)))
          ws shaders.
Proof.
  revert shaders. induction ws as [|w ws IH]; intros shaders; cbn [decode_wires].
  - intros [= <-]. constructor.
  - destruct (decode_name decode (wire_name w)) as [n|e] eqn:E; [|discriminate].
    cbn [bind].
    destruct (decode_wires encode decode ws) as [rest|e]; [|discriminate].
    cbn [bind]. intros [= <-]. constructor; [eauto | now apply IH].
Qed.

Lemma Forall2_impl {A B : Type} (R S : A -> B -> Prop) (l : list A) (m : list B) :
  (forall a b, R a b -> S a b) -> Forall2 R l m -> Forall2 S l m.
Proof. intros H. induction 1; constructor; auto. Qed.

Lemma Forall2_compose {A B C : Type} (R : A -> B -> Prop) (S : B -> C -> Prop)
      (l : list A) (m : list B) (n : list C) :
  Forall2 R l m -> Forall2 S m n ->
  Forall2 (fun a c => exists b, R a b /\ S b c) l n.
Proof.
  intros H. revert n. induction H as [|a b l m Hab _ IH]; intros n Hn.
  - inversion Hn. constructor.
  - inversion Hn as [|b' c m' n' Hbc Hrest]; subst.
    constructor; [eauto | now apply IH].
Qed.

Lemma Forall2_Forall_right {A B : Type} (R : A -> B -> Prop) (P : B -> Prop)
      (l : list A) (m : list B) :
  (forall a b, R a b -> P b) -> Forall2 R l m -> Forall P m.
Proof. intros H. induction 1; constructor; eauto. Qed.

(** X5. A buffer that is exactly a sequence of records (length byte, name
    bytes, two little-endian sizes each followed by that many bytes)
    decodes, when latin-1 decodes every byte string, to one entry for each
    record, in order: the name is the decoded name bytes and each blob is
    the stored bytes with the XOR layer removed. *)
Theorem unpack_whole_records
        (encode : string -> pystr -> option bytes)
        (decode : string -> bytes -> option pystr) (ws : list wire) :
  Forall wire_fits ws ->
  (forall b, decode "latin-1" b <> None) ->
  exists shaders,
    unpack encode decode (concat (map wire_bytes ws)) = Some (Done shaders)
    /\ Forall2 (decoded_from decode) ws shaders.
Proof.
  intros Hfit Hl.
  destruct (decode_wires_total encode decode Hl ws) as [shaders E].
  exists shaders. rewrite (unpack_wires encode decode ws Hfit), E.
  split; [reflexivity|].
  apply decode_wires_decoded_from in E.
  revert E. apply Forall2_impl. intros w x (n & Hn & ->).
  unfold decoded_from, extract. cbn [info name vs_data ps_data]. eauto.
Qed.

Lemma py_latin1_total (b : bytes) : PyCodec.decode "latin-1" b <> None.
Proof. unfold PyCodec.decode. simpl. discriminate. Qed.

Lemma unpack_whole_records_witness :
  Forall wire_fits [wire_A; wire_A]
  /\ exists shaders,
      py_unpack (concat (map wire_bytes [wire_A; wire_A])) = Some (Done shaders)
      /\ Forall2 (decoded_from PyCodec.decode) [wire_A; wire_A] shaders.
Proof.
  assert (Hfit : Forall wire_fits [wire_A; wire_A]).
  { repeat constructor; unfold two_32; simpl; lia. }
  split; [exact Hfit|].
  exact (unpack_whole_records PyCodec.encode PyCodec.decode [wire_A; wire_A]
           Hfit py_latin1_total).
Defined.

(** ** What the encode loop writes *)

Section EncodeOutput.

Variable encode : string -> pystr -> option bytes.
Variable files : pystr -> option bytes.

Lemma write_record_done (out name_bytes vs ps result : bytes) :
  write_record out name_bytes vs ps = Done result ->
  length name_bytes < 256
  /\ (N.of_nat (length vs) < two_32)%N
  /\ (N.of_nat (length ps) < two_32)%N.
Proof.
  unfold write_record, bytearray_append, struct_pack_I.
  destruct (Nat.ltb_spec (length name_bytes) 256); [|discriminate]. cbn [bind].
  destruct (N.ltb_spec (N.of_nat (length vs)) two_32); [|discriminate]. cbn [bind].
  destruct (N.ltb_spec (N.of_nat (length ps)) two_32); [|discriminate].
  intros _. auto.
Qed.

Lemma pack_shader_done_wire (st st' : bytes * nat) (shader : shader_info) :
  ready files shader = true ->
  pack_shader encode files st shader = Done st' ->
  exists w, shader_wire encode files shader = Some w /\ wire_fits w.
Proof.
  unfold ready, pack_shader, shader_wire, blob, stored_encoding.
  destruct st as [out n].
  destruct (name shader) as [nm|]; [|discriminate].
  destruct (vertex_shader_file shader) as [v|]; [|discriminate].
  destruct (pixel_shader_file shader) as [p|]; [|discriminate].
  destruct (files v) as [vs|]; [|discriminate].
  destruct (files p) as [ps|]; [|discriminate].
  intros _.
  destruct (encode_name encode _ _) as [nb|e]; [|discriminate]. cbn [bind].
  destruct (write_record out nb _ _) as [result|e] eqn:E; [|discriminate].
  intros _. apply write_record_done in E. eexists. split; [reflexivity|].
  exact E.
Qed.

Lemma pack_loop_done_wires (shaders : list shader_info) (st st' : bytes * nat) :
  pack_loop encode files shaders st = Done st' ->
  exists ws,
    Forall2 (fun s w => shader_wire encode files s = Some w /\ wire_fits w)
            (filter (ready files) shaders) ws.
Proof.
  revert st. induction shaders as [|s rest IH]; intros st; cbn [pack_loop filter].
  - intros _. exists []. constructor.
  - destruct (pack_shader encode files st s) as [st1|e] eqn:E; [|discriminate].
    cbn [bind]. intros H. apply IH in H. destruct H as [ws Hws].
    destruct (ready files s) eqn:R; [|eauto].
    destruct (pack_shader_done_wire st st1 s R E) as [w Hw].
    exists (w :: ws). now constructor.
Qed.

Lemma pack_loop_done_output (shaders : list shader_info) (out : bytes) (n : nat) :
  pack_loop encode files shaders ([], 0) = Done (out, n) ->
  exists ws,
    Forall2 (fun s w => shader_wire encode files s = Some w /\ wire_fits w)
            (filter (ready files) shaders) ws
    /\ out = concat (map wire_bytes ws)
    /\ n = length ws.
Proof.
  intros H. destruct (pack_loop_done_wires shaders _ _ H) as [ws Hws].
  exists ws. split; [exact Hws|].
  pose proof (pack_loop_wires encode files _ ws [] 0 Hws) as E.
  rewrite pack_loop_filter_ready in E.
  assert (E' : Done (out, n)
               = Done (concat (map wire_bytes ws),
                       length (filter (ready files) shaders)))
    by (rewrite <- H; exact E).
  injection E' as -> ->. split; [reflexivity|]. exact (Forall2_length Hws).
Qed.

End EncodeOutput.

(** X6. When [pack] completes, the count it reports is the number of
    entries of the metadata that have their three required keys and both
    of their files; it never exceeds the number of entries. *)
Theorem pack_counts_ready_entries
        (encode : string -> pystr -> option bytes)
        (decode : string -> bytes -> option pystr)
        (files : pystr -> option bytes)
        (metadata shaders : list shader_info) (all_fxc_files : list pystr)
        (output_data : bytes) (packed_count : nat) :
  pack encode decode (Some metadata) all_fxc_files files
  = Packed shaders output_data packed_count ->
  packed_count = length (filter (ready files) shaders)
  /\ packed_count <= length shaders.
Proof.
  rewrite pack_unfold.
  destruct (pack_loop encode files _ ([], 0)) as [[out n]|e] eqn:E; [|discriminate].
  intros [= <- <- <-].
  apply pack_loop_count in E. simpl in E. subst n.
  split; [reflexivity | apply filter_length_le].
Qed.

Lemma pack_counts_ready_entries_witness :
  py_pack (Some [shader_A; shader_B]) [] dir_A
  = Packed [shader_A; shader_B] (wire_bytes wire_A) 1
  /\ 1 = length (filter (ready dir_A) [shader_A; shader_B])
  /\ 1 <= length [shader_A; shader_B].
Proof.
  assert (E : py_pack (Some [shader_A; shader_B]) [] dir_A
              = Packed [shader_A; shader_B] (wire_bytes wire_A) 1)
    by (vm_compute; reflexivity).
  split; [exact E|].
  exact (pack_counts_ready_entries PyCodec.encode PyCodec.decode dir_A
           _ _ _ _ _ E).
Defined.

(** X7. A metadata entry that lacks its name key or one of its two file
    keys is skipped like one whose file is missing: from any state of the
    loop, the run over the metadata is the run over the metadata without
    that entry. *)
Theorem pack_skips_incomplete_entry
        (encode : string -> pystr -> option bytes)
        (files : pystr -> option bytes)
        (before after : list shader_info) (shader : shader_info)
        (st : bytes * nat) :
  name shader = None \/ vertex_shader_file shader = None
  \/ pixel_shader_file shader = None ->
  pack_shader encode files st shader = Done st
  /\ pack_loop encode files (before ++ shader :: after) st
     = pack_loop encode files (before ++ after) st.
Proof.
  intros H.
  assert (R : ready files shader = false).
  { unfold ready. destruct H as [-> | [-> | ->]]; [reflexivity| |].
    - now destruct (name shader).
    - now destruct (name shader), (vertex_shader_file shader). }
  split; [now apply pack_shader_not_ready | now apply pack_loop_skip].
Qed.

Lemma pack_skips_incomplete_entry_witness :
  (name shader_nameless = None \/ vertex_shader_file shader_nameless = None
   \/ pixel_shader_file shader_nameless = None)
  /\ pack_loop PyCodec.encode dir_A [shader_A; shader_nameless; shader_A] ([], 0)
     = pack_loop PyCodec.encode dir_A [shader_A; shader_A] ([], 0).
Proof.
  assert (H : name shader_nameless = None \/ vertex_shader_file shader_nameless = None
              \/ pixel_shader_file shader_nameless = None) by (left; reflexivity).
  split; [exact H|].
  exact (proj2 (pack_skips_incomplete_entry PyCodec.encode dir_A [shader_A]
                  [shader_A] shader_nameless ([], 0) H)).
Defined.

(** X8. Whatever the names and tags of the metadata, a container [pack]
    completes is well formed: when latin-1 decodes every byte string, the
    decode of its output completes, returns as many entries as were
    packed, and these carry, in order, the blobs of the entries that were
    not skipped. *)
Theorem pack_output_decodes
        (encode : string -> pystr -> option bytes)
        (decode : string -> bytes -> option pystr)
        (files : pystr -> option bytes) (shaders : list shader_info)
        (output_data : bytes) (packed_count : nat) :
  pack_loop encode files shaders ([], 0) = Done (output_data, packed_count) ->
  (forall b, decode "latin-1" b <> None) ->
  exists decoded,
    unpack encode decode output_data = Some (Done decoded)
    /\ length decoded = packed_count
    /\ Forall2 (same_blobs files) (filter (ready files) shaders) decoded.
Proof.
  intros H Hl.
  destruct (pack_loop_done_output encode files shaders _ _ H)
    as (ws & Hws & -> & ->).
  assert (Hfit : Forall wire_fits ws).
  { revert Hws. apply Forall2_Forall_right. tauto. }
  destruct (decode_wires_total encode decode Hl ws) as [decoded E].
  exists decoded. rewrite (unpack_wires encode decode ws Hfit), E.
  split; [reflexivity|].
  apply decode_wires_decoded_from in E.
  split; [symmetry; exact (Forall2_length E)|].
  pose proof (Forall2_compose _ _ _ _ _ Hws E) as C.
  revert C. apply Forall2_impl.
  intros s x (w & [Hw _] & n & _ & ->).
  unfold shader_wire in Hw. unfold same_blobs, extract. cbn [vs_data ps_data].
  destruct (name s); [|discriminate].
  destruct (blob files (vertex_shader_file s)) as [vs|]; [|discriminate].
  destruct (blob files (pixel_shader_file s)) as [ps|]; [|discriminate].
  destruct (encode_name encode _ _); [|discriminate].
  injection Hw as <-. cbn [wire_vs wire_ps].
  unfold xor_decrypt, xor_encrypt. now rewrite !map_xor_9C_twice.
Qed.

Lemma pack_output_decodes_witness :
  pack_loop PyCodec.encode dir_A [shader_e_acute; shader_B] ([], 0)
  = Done ([x03; xc3; xa9; x00; x02; x00; x00; x00; x9d; x9e;
           x00; x00; x00; x00], 1)
  /\ exists decoded,
      py_unpack [x03; xc3; xa9; x00; x02; x00; x00; x00; x9d; x9e;
                 x00; x00; x00; x00] = Some (Done decoded)
      /\ length decoded = 1
      /\ Forall2 (same_blobs dir_A)
                 (filter (ready dir_A) [shader_e_acute; shader_B]) decoded.
Proof.
  assert (E : pack_loop PyCodec.encode dir_A [shader_e_acute; shader_B] ([], 0)
              = Done ([x03; xc3; xa9; x00; x02; x00; x00; x00; x9d; x9e;
                       x00; x00; x00; x00], 1))
    by (vm_compute; reflexivity).
  split; [exact E|].
  exact (pack_output_decodes PyCodec.encode PyCodec.decode dir_A _ _ _ E
           py_latin1_total).
Defined.

(** ** The directory written by [unpack] *)

Lemma write_all_app (files : pystr -> option bytes) (l m : list (pystr * bytes)) :
  write_all files (l ++ m) = write_all (write_all files l) m.
Proof. unfold write_all. apply fold_left_app. Qed.

Lemma write_all_notin (files : pystr -> option bytes) (l : list (pystr * bytes))
      (f : pystr) :
  ~ In f (map fst l) -> write_all files l f = files f.
Proof.
  revert files. induction l as [|[g c] l IH]; intros files H; [reflexivity|].
  change (write_all files ((g, c) :: l)) with (write_all (write_file files g c) l).
  rewrite IH by (intros Hin; apply H; now right).
  unfold write_file. cbn [fst snd].
  destruct (pystr_eqb f g) eqn:E; [|reflexivity].
  apply pystr_eqb_eq in E. exfalso. apply H. left. cbn [fst]. now symmetry.
Qed.

Lemma write_all_in (files : pystr -> option bytes) (l : list (pystr * bytes))
      (f : pystr) (c : bytes) :
  NoDup (map fst l) -> In (f, c) l -> write_all files l f = Some c.
Proof.
  revert files. induction l as [|[g d] l IH]; intros files Hnd Hin; [destruct Hin|].
  cbn [map fst] in Hnd. inversion Hnd as [|? ? Hg Hl]; subst.
  change (write_all files ((g, d) :: l)) with (write_all (write_file files g d) l).
  destruct Hin as [[= -> ->]|Hin].
  - rewrite write_all_notin by exact Hg.
    unfold write_file. cbn [fst snd]. now rewrite pystr_eqb_refl.
  - now apply IH.
Qed.

Lemma suffixes_differ (a b : pystr) : a ++ str "_vs.fxc" <> b ++ str "_ps.fxc".
Proof.
  intros H. apply (f_equal (@rev N)) in H. rewrite !rev_app_distr in H.
  vm_compute in H. discriminate.
Qed.

Lemma in_unpack_writes (shaders : list extracted) (f : pystr) :
  In f (map fst (flat_map unpack_writes shaders)) ->
  exists x n,
    In x shaders /\ name (info x) = Some n
    /\ (f = sanitize_filename n ++ str "_vs.fxc"
        \/ f = sanitize_filename n ++ str "_ps.fxc").
Proof.
  induction shaders as [|x rest IH]; [intros []|].
  cbn [flat_map]. rewrite map_app, in_app_iff. intros [H|H].
  - unfold unpack_writes in H. destruct (name (info x)) as [n|] eqn:E; [|destruct H].
    exists x, n. split; [now left|]. split; [exact E|].
    cbn [map fst In] in H. destruct H as [<-|[<-|[]]]; tauto.
  - destruct (IH H) as (y & n & Hy & Hn & Hf). exists y, n.
    split; [now right | tauto].
Qed.

Lemma unpack_writes_NoDup (shaders : list extracted) :
  NoDup (map safe_name_of shaders) ->
  NoDup (map fst (flat_map unpack_writes shaders)).
Proof.
  induction shaders as [|x rest IH]; [intros _; constructor|].
  cbn [map flat_map]. intros H. inversion H as [|? ? Hx Hrest]; subst.
  specialize (IH Hrest). rewrite map_app.
  unfold unpack_writes at 1. destruct (name (info x)) as [n|] eqn:E; [|exact IH].
  cbn [map fst app].
  assert (Hfresh : forall f,
             f = sanitize_filename n ++ str "_vs.fxc"
             \/ f = sanitize_filename n ++ str "_ps.fxc" ->
             ~ In f (map fst (flat_map unpack_writes rest))).
  { intros f Hf Hin. apply in_unpack_writes in Hin.
    destruct Hin as (y & m & Hy & Hm & Hfm). apply Hx.
    apply in_map_iff. exists y. split; [|exact Hy].
    unfold safe_name_of. rewrite E, Hm. cbn [option_map]. f_equal.
    destruct Hf as [-> | ->]; destruct Hfm as [Hfm|Hfm].
    - now apply app_inv_tail in Hfm.
    - now apply suffixes_differ in Hfm.
    - symmetry in Hfm. now apply suffixes_differ in Hfm.
    - now apply app_inv_tail in Hfm. }
  constructor.
  - intros [Hin|Hin].
    + symmetry in Hin. now apply suffixes_differ in Hin.
    + revert Hin. apply Hfresh. now left.
  - constructor; [|exact IH]. apply Hfresh. now right.
Qed.

Lemma Forall2_In_right {A B : Type} (R : A -> B -> Prop) (l : list A) (m m0 : list B) :
  incl m m0 -> Forall2 R l m -> Forall2 (fun a b => R a b /\ In b m0) l m.
Proof.
  intros Hincl H. induction H as [|a b l m Hab _ IH]; constructor.
  - split; [exact Hab|]. apply Hincl. now left.
  - apply IH. intros y Hy. apply Hincl. now right.
Qed.

Lemma Forall2_Forall_left {A B : Type} (R : A -> B -> Prop) (P : A -> Prop)
      (l : list A) (m : list B) :
  Forall P l -> Forall2 R l m -> Forall2 (fun a b => P a /\ R a b) l m.
Proof.
  intros HP H. induction H as [|a b l m Hab _ IH]; constructor.
  - inversion HP; subst. tauto.
  - inversion HP; subst. now apply IH.
Qed.

Lemma Forall2_flip_map {A B C : Type} (R : A -> B -> Prop) (S : C -> A -> Prop)
      (g : B -> C) (l : list A) (m : list B) :
  (forall a b, R a b -> S (g b) a) -> Forall2 R l m -> Forall2 S (map g m) l.
Proof. intros H. induction 1; simpl; constructor; auto. Qed.

Section Repack.

Variable encode : string -> pystr -> option bytes.
Variable decode : string -> bytes -> option pystr.
Variable files0 : pystr -> option bytes.

(** The files of an entry of the decoded list, in the directory the
    decode leaves, when no two entries share a sanitized name. *)
Lemma unpack_dir_lookup (shaders : list extracted) (x : extracted) (n : pystr) :
  NoDup (map safe_name_of shaders) ->
  In x shaders ->
  name (info x) = Some n ->
  unpack_dir files0 shaders (sanitize_filename n ++ str "_vs.fxc")
  = Some (vs_data x)
  /\ unpack_dir files0 shaders (sanitize_filename n ++ str "_ps.fxc")
     = Some (ps_data x).
Proof.
  intros Hnd Hx Hn. apply unpack_writes_NoDup in Hnd. unfold unpack_dir.
  split; apply write_all_in; try exact Hnd;
    apply in_flat_map; exists x; (split; [exact Hx|]);
    unfold unpack_writes; rewrite Hn; cbn [In]; tauto.
Qed.

Lemma repack_wire (shaders : list extracted) (w : wire) (x : extracted) :
  NoDup (map safe_name_of shaders) ->
  wire_fits w ->
  re_encodes encode decode w ->
  (exists name_raw,
      decode_name decode (wire_name w) = Done name_raw
      /\ x = extract encode name_raw (xor_decrypt (wire_vs w))
                     (xor_decrypt (wire_ps w))) ->
  In x shaders ->
  shader_wire encode (unpack_dir files0 shaders) (info x) = Some w
  /\ wire_fits w.
Proof.
  intros Hnd Hfit (n' & Hd' & Henc) (n & Hd & Hx) Hin.
  rewrite Hd in Hd'. injection Hd' as <-.
  split; [|exact Hfit].
  assert (Hname : name (info x) = Some n) by (subst x; reflexivity).
  destruct (unpack_dir_lookup shaders x n Hnd Hin Hname) as [Hv Hp].
  subst x. unfold shader_wire, blob, stored_encoding, extract in *.
  cbn [info name encoding vertex_shader_file pixel_shader_file vs_data ps_data] in *.
  rewrite Hv, Hp, Henc. unfold xor_encrypt, xor_decrypt.
  rewrite !map_xor_9C_twice. now destruct w.
Qed.

Lemma unpack_writes_referenced (shaders : list extracted) (f : pystr) :
  Forall (fun x => exists n vs ps, x = extract encode n vs ps) shaders ->
  In f (map fst (flat_map unpack_writes shaders)) ->
  referenced (map info shaders) f.
Proof.
  intros Hshape Hin. apply in_unpack_writes in Hin.
  destruct Hin as (x & n & Hx & Hn & Hf).
  rewrite Forall_forall in Hshape.
  destruct (Hshape x Hx) as (m & vs & ps & ->).
  cbn [extract info name] in Hn. injection Hn as ->.
  exists (info (extract encode n vs ps)). split; [now apply in_map|].
  unfold extract. cbn [info vertex_shader_file pixel_shader_file].
  destruct Hf as [-> | ->]; [left | right]; reflexivity.
Qed.

End Repack.

(** X9. Unpacking a container and packing the directory again gives the
    container back, byte for byte. It holds for a buffer of whole records
    when each name, decoded and stored with its tag, is encoded by [pack]
    to the name bytes it came from, no two entries share a sanitized name,
    and the directory lists no shader file beside the ones written. *)
Theorem unpack_then_pack_identity
        (encode : string -> pystr -> option bytes)
        (decode : string -> bytes -> option pystr)
        (files0 : pystr -> option bytes)
        (ws : list wire) (shaders : list extracted) (all_fxc_files : list pystr) :
  Forall wire_fits ws ->
  unpack encode decode (concat (map wire_bytes ws)) = Some (Done shaders) ->
  Forall (re_encodes encode decode) ws ->
  NoDup (map safe_name_of shaders) ->
  (forall f, In f all_fxc_files ->
             In f (map fst (flat_map unpack_writes shaders))) ->
  pack encode decode (Some (map info shaders)) all_fxc_files
       (unpack_dir files0 shaders)
  = Packed (map info shaders) (concat (map wire_bytes ws)) (length ws).
Proof.
  intros Hfit Hun Hre Hnd Hlist.
  rewrite (unpack_wires encode decode ws Hfit) in Hun.
  injection Hun as Hdec. apply decode_wires_decoded_from in Hdec.
  assert (Hshape : Forall (fun x => exists n vs ps, x = extract encode n vs ps)
                          shaders).
  { revert Hdec. apply Forall2_Forall_right. intros w x (n & _ & ->). eauto. }
  assert (Hrec : reconcile encode decode (map info shaders) all_fxc_files
                 = (map info shaders, [])).
  { unfold reconcile. rewrite find_new_shaders_known; [reflexivity|].
    intros f Hf. apply known_files_referenced.
    apply (unpack_writes_referenced encode shaders f Hshape). now apply Hlist. }
  assert (Hlink : Forall2 (fun s w =>
                             shader_wire encode (unpack_dir files0 shaders) s = Some w
                             /\ wire_fits w)
                          (map info shaders) ws).
  { assert (Hall : Forall2 (fun w x =>
                              (wire_fits w /\ re_encodes encode decode w)
                              /\ (exists name_raw,
                                     decode_name decode (wire_name w) = Done name_raw
                                     /\ x = extract encode name_raw
                                              (xor_decrypt (wire_vs w))
                                              (xor_decrypt (wire_ps w)))
                                 /\ In x shaders)
                           ws shaders).
    { apply Forall2_In_right with (m0 := shaders) in Hdec; [|apply incl_refl].
      apply Forall2_Forall_left; [|exact Hdec].
      apply Forall_forall. intros w Hw. rewrite Forall_forall in Hfit, Hre.
      auto. }
    revert Hall. apply Forall2_flip_map.
    intros w x [[Hw Hr] [Hx Hin]].
    now apply (repack_wire encode decode files0 shaders w x). }
  rewrite pack_unfold, Hrec. cbn [fst].
  pose proof (pack_loop_wires encode (unpack_dir files0 shaders) _ ws [] 0 Hlink) as E.
  match goal with
  | |- context [pack_loop ?e ?f ?l ?s] =>
      assert (E' : pack_loop e f l s
                   = Done (concat (map wire_bytes ws), length ws))
        by (rewrite <- (Forall2_length Hlink), length_map;
            rewrite length_map in E; exact E)
  end.
  now rewrite E'.
Qed.

Lemma unpack_then_pack_identity_witness :
  unpack PyCodec.encode PyCodec.decode (concat (map wire_bytes [wire_A]))
  = Some (Done [extract PyCodec.encode (str "A" ++ [NUL]) [x01; x02] []])
  /\ py_pack (Some [info (extract PyCodec.encode (str "A" ++ [NUL]) [x01; x02] [])])
             [str "A_ps.fxc"; str "A_vs.fxc"]
             (unpack_dir (fun _ => None)
                [extract PyCodec.encode (str "A" ++ [NUL]) [x01; x02] []])
     = Packed [info (extract PyCodec.encode (str "A" ++ [NUL]) [x01; x02] [])]
              (concat (map wire_bytes [wire_A])) 1.
Proof.
  assert (Hfit : Forall wire_fits [wire_A]).
  { repeat constructor; unfold two_32; simpl; lia. }
  assert (Hun : unpack PyCodec.encode PyCodec.decode (concat (map wire_bytes [wire_A]))
                = Some (Done [extract PyCodec.encode (str "A" ++ [NUL])
                                      [x01; x02] []]))
    by (vm_compute; reflexivity).
  assert (Hre : Forall (re_encodes PyCodec.encode PyCodec.decode) [wire_A]).
  { repeat constructor. exists (str "A" ++ [NUL]). split; reflexivity. }
  assert (Hnd : NoDup (map safe_name_of
                           [extract PyCodec.encode (str "A" ++ [NUL]) [x01; x02] []])).
  { constructor; [intros []|constructor]. }
  assert (Hlist : forall f, In f [str "A_ps.fxc"; str "A_vs.fxc"] ->
                    In f (map fst (flat_map unpack_writes
                      [extract PyCodec.encode (str "A" ++ [NUL]) [x01; x02] []]))).
  { intros f [<-|[<-|[]]]; vm_compute; tauto. }
  split; [exact Hun|].
  exact (unpack_then_pack_identity PyCodec.encode PyCodec.decode (fun _ => None)
           [wire_A] _ _ Hfit Hun Hre Hnd Hlist).
Defined.

(** X10. Two entries of a container whose names sanitize to the same file
    name share their two files, and the later one wins: after the decode,
    the files the earlier entry's metadata refers to hold the blobs of the
    last entry with that sanitized name. *)
Theorem unpack_overwrites_shared_name
        (encode : string -> pystr -> option bytes)
        (files0 : pystr -> option bytes)
        (before between after : list extracted)
        (m n : pystr) (vs ps vs' ps' : bytes) :
  sanitize_filename m = sanitize_filename n ->
  Forall (fun z => safe_name_of z <> Some (sanitize_filename n)) after ->
  blob (unpack_dir files0
          (before ++ extract encode m vs ps
             :: between ++ extract encode n vs' ps' :: after))
       (vertex_shader_file (info (extract encode m vs ps))) = Some vs'
  /\ blob (unpack_dir files0
             (before ++ extract encode m vs ps
                :: between ++ extract encode n vs' ps' :: after))
          (pixel_shader_file (info (extract encode m vs ps))) = Some ps'.
Proof.
  intros Hsame Hafter.
  assert (Hfresh : forall f,
             f = sanitize_filename n ++ str "_vs.fxc"
             \/ f = sanitize_filename n ++ str "_ps.fxc" ->
             ~ In f (map fst (flat_map unpack_writes after))).
  { intros f Hf Hin. apply in_unpack_writes in Hin.
    destruct Hin as (z & k & Hz & Hk & Hfk).
    rewrite Forall_forall in Hafter. apply (Hafter z Hz).
    unfold safe_name_of. rewrite Hk. cbn [option_map]. f_equal.
    destruct Hf as [-> | ->]; destruct Hfk as [Hfk|Hfk].
    - apply app_inv_tail in Hfk. now symmetry.
    - now apply suffixes_differ in Hfk.
    - symmetry in Hfk. now apply suffixes_differ in Hfk.
    - apply app_inv_tail in Hfk. now symmetry. }
  assert (Hv : vertex_shader_file (info (extract encode m vs ps))
               = Some (sanitize_filename n ++ str "_vs.fxc"))
    by (cbn [extract info vertex_shader_file]; now rewrite Hsame).
  assert (Hp : pixel_shader_file (info (extract encode m vs ps))
               = Some (sanitize_filename n ++ str "_ps.fxc"))
    by (cbn [extract info pixel_shader_file]; now rewrite Hsame).
  rewrite Hv, Hp. cbn [blob]. clear Hv Hp.
  set (x := extract encode m vs ps).
  assert (Hy : flat_map unpack_writes [extract encode n vs' ps']
               = [ (sanitize_filename n ++ str "_vs.fxc", vs');
                   (sanitize_filename n ++ str "_ps.fxc", ps') ])
    by reflexivity.
  unfold unpack_dir.
  replace (before ++ x :: between ++ extract encode n vs' ps' :: after)
    with ((before ++ x :: between) ++ [extract encode n vs' ps'] ++ after)
    by (rewrite <- app_assoc; reflexivity).
  rewrite (flat_map_app unpack_writes (before ++ x :: between)).
  rewrite (flat_map_app unpack_writes [extract encode n vs' ps'] after).
  rewrite Hy, !write_all_app.
  split; (rewrite write_all_notin by (apply Hfresh; tauto)).
  - cbn [write_all fold_left fst snd]. unfold write_file at 1.
    destruct (pystr_eqb _ _) eqn:E.
    + apply pystr_eqb_eq in E. now apply suffixes_differ in E.
    + unfold write_file. now rewrite pystr_eqb_refl.
  - cbn [write_all fold_left fst snd]. unfold write_file at 1.
    now rewrite pystr_eqb_refl.
Qed.

Lemma unpack_overwrites_shared_name_witness :
  sanitize_filename (str "a/b") = sanitize_filename (str "a:b")
  /\ blob (unpack_dir (fun _ => None)
             [extract PyCodec.encode (str "a/b") [x01] [x02];
              extract PyCodec.encode (str "a:b") [x03] [x04]])
          (Some (str "a_b_vs.fxc")) = Some [x03].
Proof.
  assert (H : sanitize_filename (str "a/b") = sanitize_filename (str "a:b"))
    by reflexivity.
  split; [exact H|].
  exact (proj1 (unpack_overwrites_shared_name PyCodec.encode (fun _ => None)
                  [] [] [] (str "a/b") (str "a:b") [x01] [x02] [x03] [x04]
                  H (Forall_nil _))).
Defined.


(** ** More on the discovery of new shader pairs *)

Lemma endswith_split (f suffix : pystr) :
  endswith f suffix = true ->
  f = firstn (length f - length suffix) f ++ suffix.
Proof.
  unfold endswith. rewrite andb_true_iff, pystr_eqb_eq. intros [H _].
  pose proof (firstn_skipn (length f - length suffix) f) as E.
  rewrite H in E. now symmetry.
Qed.

Lemma mem_false (x : pystr) (s : list pystr) : mem x s = false <-> ~ In x s.
Proof.
  rewrite <- mem_In. destruct (mem x s); split; congruence.
Qed.

Lemma referenced_app (l1 l2 : list shader_info) (f : pystr) :
  referenced (l1 ++ l2) f <-> referenced l1 f \/ referenced l2 f.
Proof.
  unfold referenced. split.
  - intros (x & Hx & Hf). apply in_app_iff in Hx. destruct Hx; eauto.
  - intros [(x & Hx & Hf)|(x & Hx & Hf)]; exists x; rewrite in_app_iff; tauto.
Qed.

Section DiscoveryLoop.

Variable encode : string -> pystr -> option bytes.
Variable decode : string -> bytes -> option pystr.
Variable all_fxc_files known : list pystr.

Lemma find_new_shaders_extends (todo processed : list pystr)
      (new_shaders : list shader_info) :
  exists ext,
    find_new_shaders encode decode all_fxc_files known todo processed new_shaders
    = new_shaders ++ ext.
Proof.
  revert processed new_shaders.
  induction todo as [|f todo IH]; intros processed new_shaders; simpl.
  - exists []. now rewrite app_nil_r.
  - destruct (mem f known || mem f processed); [apply IH|].
    destruct (endswith f (str "_vs.fxc")); [|apply IH].
    destruct (mem _ all_fxc_files && negb (mem _ known)); [|apply IH].
    match goal with
    | |- context [find_new_shaders _ _ _ _ _ ?p ?n] =>
        destruct (IH p n) as [ext E]
    end.
    rewrite E, <- app_assoc. eauto.
Qed.

(** Every entry the loop adds pairs two listed files outside [known]. *)
Lemma find_new_shaders_sound (P : shader_info -> Prop)
      (todo processed : list pystr) (new_shaders : list shader_info) :
  (forall base_name shader,
      pair_entry base_name shader ->
      In (base_name ++ str "_vs.fxc") todo ->
      In (base_name ++ str "_ps.fxc") all_fxc_files ->
      ~ In (base_name ++ str "_vs.fxc") known ->
      ~ In (base_name ++ str "_ps.fxc") known ->
      P shader) ->
  Forall P new_shaders ->
  Forall P (find_new_shaders encode decode all_fxc_files known todo processed
                             new_shaders).
Proof.
  revert processed new_shaders.
  induction todo as [|f todo IH]; intros processed new_shaders HP H; simpl;
    [exact H|].
  assert (HP' : forall base_name shader,
             pair_entry base_name shader ->
             In (base_name ++ str "_vs.fxc") todo ->
             In (base_name ++ str "_ps.fxc") all_fxc_files ->
             ~ In (base_name ++ str "_vs.fxc") known ->
             ~ In (base_name ++ str "_ps.fxc") known ->
             P shader).
  { intros b sh Hb Hin. apply (HP b sh Hb). now right. }
  destruct (mem f known || mem f processed) eqn:Ek; [now apply IH|].
  destruct (endswith f (str "_vs.fxc")) eqn:Ee; [|now apply IH].
  destruct (mem _ all_fxc_files && negb (mem _ known)) eqn:Ec; [|now apply IH].
  apply IH; [exact HP'|]. apply Forall_app. split; [exact H|].
  constructor; [|constructor].
  apply orb_false_iff in Ek. destruct Ek as [Ek _].
  apply andb_true_iff in Ec. destruct Ec as [Ea Eb].
  apply negb_true_iff in Eb.
  apply endswith_split in Ee. change (length (str "_vs.fxc")) with 7 in Ee.
  set (base := firstn (length f - 7) f) in *.
  apply (HP base).
  - unfold pair_entry. cbn [name vertex_shader_file pixel_shader_file].
    rewrite <- Ee. auto.
  - left. exact Ee.
  - now apply mem_In.
  - rewrite <- Ee. now apply mem_false.
  - now apply mem_false.
Qed.

(** Every unknown pair of the listing gets an entry. *)
Lemma find_new_shaders_complete (base_name : pystr)
      (todo processed : list pystr) (new_shaders : list shader_info) :
  (forall g, In g processed -> referenced new_shaders g) ->
  Forall (fun e => exists b, pair_entry b e) new_shaders ->
  In (base_name ++ str "_vs.fxc") todo ->
  In (base_name ++ str "_ps.fxc") all_fxc_files ->
  ~ In (base_name ++ str "_vs.fxc") known ->
  ~ In (base_name ++ str "_ps.fxc") known ->
  exists shader,
    In shader (find_new_shaders encode decode all_fxc_files known todo processed
                                new_shaders)
    /\ pair_entry base_name shader.
Proof.
  revert processed new_shaders.
  induction todo as [|f todo IH]; intros processed new_shaders Hproc Hpairs Hin Hps Hkv Hkp;
    [destruct Hin|].
  cbn [find_new_shaders].
  set (base := firstn (length f - 7) f).
  set (entry := {| name := Some (null_terminated base);
                   encoding := Some (detect_encoding encode decode base);
                   vertex_shader_file := Some f;
                   pixel_shader_file := Some (base ++ str "_ps.fxc") |}).
  assert (Hstep : endswith f (str "_vs.fxc") = true ->
                  (forall g, In g ((base ++ str "_ps.fxc") :: f :: processed) ->
                             referenced (new_shaders ++ [entry]) g)
                  /\ Forall (fun e => exists b, pair_entry b e)
                            (new_shaders ++ [entry])).
  { intros Ee. apply endswith_split in Ee.
    change (length (str "_vs.fxc")) with 7 in Ee. fold base in Ee. split.
    - intros g [<-|[<-|Hg]]; apply referenced_app.
      + right. exists entry. split; [now left | now right].
      + right. exists entry. split; [now left | now left].
      + left. now apply Hproc.
    - apply Forall_app. split; [exact Hpairs|]. constructor; [|constructor].
      exists base. unfold pair_entry, entry.
      cbn [name vertex_shader_file pixel_shader_file]. rewrite <- Ee. auto. }
  destruct Hin as [->|Hin].
  - (* the pair's vertex file is the one at hand *)
    assert (Hbase : base = base_name).
    { unfold base. rewrite length_app.
      change (length (str "_vs.fxc")) with 7.
      replace (length base_name + 7 - 7) with (length base_name + 0) by lia.
      rewrite firstn_app_2. simpl. apply app_nil_r. }
    apply mem_false in Hkv. rewrite Hkv. cbn [orb].
    destruct (mem (base_name ++ str "_vs.fxc") processed) eqn:Ep.
    + apply mem_In in Ep. destruct (Hproc _ Ep) as (e & He & Hf).
      rewrite Forall_forall in Hpairs. destruct (Hpairs e He) as (b & Hn & Hv & Hp).
      destruct (find_new_shaders_extends todo processed new_shaders) as [ext ->].
      exists e. split; [apply in_app_iff; now left|].
      destruct Hf as [Hf|Hf].
      * rewrite Hv in Hf. injection Hf as Hf. apply app_inv_tail in Hf.
        subst b. now split.
      * rewrite Hp in Hf. injection Hf as Hf. symmetry in Hf.
        now apply suffixes_differ in Hf.
    + rewrite endswith_app. fold base. rewrite Hbase.
      apply mem_In in Hps. apply mem_false in Hkp. rewrite Hps, Hkp. cbn [andb negb].
      match goal with
      | |- context [find_new_shaders _ _ _ _ _ ?p ?n] =>
          destruct (find_new_shaders_extends todo p n) as [ext ->]
      end.
      eexists. split.
      * apply in_app_iff. left. apply in_app_iff. right. now left.
      * unfold pair_entry, entry.
        cbn [name vertex_shader_file pixel_shader_file]. rewrite Hbase. auto.
  - destruct (mem f known || mem f processed); [now apply IH|].
    destruct (endswith f (str "_vs.fxc")) eqn:Ee; [|now apply IH].
    destruct (mem _ all_fxc_files && negb (mem _ known)); [|now apply IH].
    destruct (Hstep eq_refl) as [H1 H2]. now apply IH.
Qed.

(** A second run with more files known adds nothing. *)
Lemma find_new_shaders_again (known' : list pystr)
      (todo processed : list pystr) (new_shaders : list shader_info)
      (processed' : list pystr) (new_shaders' : list shader_info) :
  (forall g, In g known -> In g known') ->
  (forall g,
      referenced (find_new_shaders encode decode all_fxc_files known todo
                                   processed new_shaders) g ->
      In g known') ->
  (forall g, In g processed -> referenced new_shaders g) ->
  find_new_shaders encode decode all_fxc_files known' todo processed' new_shaders'
  = new_shaders'.
Proof.
  revert processed new_shaders.
  induction todo as [|f todo IH]; intros processed new_shaders Hk Hres Hproc;
    [reflexivity|].
  cbn [find_new_shaders] in Hres |- *.
  set (base := firstn (length f - 7) f) in *.
  destruct (mem f known) eqn:Ek.
  - cbn [orb] in Hres. apply mem_In in Ek. apply Hk, mem_In in Ek.
    rewrite Ek. cbn [orb]. now apply (IH processed new_shaders).
  - cbn [orb] in Hres. destruct (mem f processed) eqn:Ep.
    + apply mem_In in Ep. apply Hproc in Ep.
      destruct (find_new_shaders_extends todo processed new_shaders) as [ext E].
      assert (Hf : mem f known' = true).
      { apply mem_In, Hres. rewrite E. apply referenced_app. now left. }
      rewrite Hf. cbn [orb]. now apply (IH processed new_shaders).
    + destruct (endswith f (str "_vs.fxc")) eqn:Ee.
      * destruct (mem (base ++ str "_ps.fxc") all_fxc_files) eqn:Ea.
        -- cbn [andb] in Hres.
           destruct (mem (base ++ str "_ps.fxc") known) eqn:Eb.
           ++ cbn [negb] in Hres. apply mem_In in Eb. apply Hk, mem_In in Eb.
              rewrite Eb. cbn [negb andb].
              destruct (mem f known' || mem f processed');
                now apply (IH processed new_shaders).
           ++ cbn [negb] in Hres.
              match type of Hres with
              | context [find_new_shaders _ _ _ _ _ ?p ?n] =>
                  destruct (find_new_shaders_extends todo p n) as [ext E];
                  assert (Hf : mem f known' = true);
                  [ apply mem_In, Hres; rewrite E, !referenced_app;
                    left; right; eexists; split; [now left | now left]
                  | rewrite Hf; cbn [orb]; apply (IH p n); auto ]
              end.
              intros g [<-|[<-|Hg]]; apply referenced_app.
              ** right. eexists. split; [now left | now right].
              ** right. eexists. split; [now left | now left].
              ** left. now apply Hproc.
        -- cbn [andb] in Hres |- *.
           destruct (mem f known' || mem f processed');
             now apply (IH processed new_shaders).
      * destruct (mem f known' || mem f processed');
          now apply (IH processed new_shaders).
Qed.

End DiscoveryLoop.

Lemma known_files_In (shaders : list shader_info) (f : pystr) :
  In f (known_files shaders) <-> referenced shaders f.
Proof. rewrite <- mem_In. apply known_files_referenced. Qed.

Lemma reconcile_fst_snd
      (encode : string -> pystr -> option bytes)
      (decode : string -> bytes -> option pystr)
      (shaders : list shader_info) (all_fxc_files : list pystr) :
  reconcile encode decode shaders all_fxc_files
  = (shaders ++ find_new_shaders encode decode all_fxc_files
                  (known_files shaders) all_fxc_files [] [],
     find_new_shaders encode decode all_fxc_files
                      (known_files shaders) all_fxc_files [] []).
Proof.
  unfold reconcile. destruct (find_new_shaders _ _ _ _ _ _ _); [|reflexivity].
  now rewrite app_nil_r.
Qed.

(** X11. The reconcile step keeps the persisted entries, in their order,
    in front of the new ones, and every entry it adds is a pair: its two
    files are [base_vs.fxc] and [base_ps.fxc] for one base name, both are in
    the directory listing, neither is referred to by a persisted entry, and
    its name is the base name with the terminating null. *)
Theorem reconcile_appends_new_pairs
        (encode : string -> pystr -> option bytes)
        (decode : string -> bytes -> option pystr)
        (shaders : list shader_info) (all_fxc_files : list pystr) :
  fst (reconcile encode decode shaders all_fxc_files)
  = shaders ++ snd (reconcile encode decode shaders all_fxc_files)
  /\ Forall (new_pair shaders all_fxc_files)
            (snd (reconcile encode decode shaders all_fxc_files)).
Proof.
  rewrite reconcile_fst_snd. cbn [fst snd]. split; [reflexivity|].
  apply find_new_shaders_sound; [|constructor].
  intros b sh Hb Hv Hp Hkv Hkp. exists b.
  rewrite known_files_In in Hkv, Hkp. tauto.
Qed.

(** X12. The reconcile step misses no pair: for every base name whose
    vertex and pixel files are both in the listing and are both referred to
    by no persisted entry, the new entries hold the entry of that pair. *)
Theorem reconcile_finds_every_new_pair
        (encode : string -> pystr -> option bytes)
        (decode : string -> bytes -> option pystr)
        (shaders : list shader_info) (all_fxc_files : list pystr)
        (base_name : pystr) :
  In (base_name ++ str "_vs.fxc") all_fxc_files ->
  In (base_name ++ str "_ps.fxc") all_fxc_files ->
  ~ referenced shaders (base_name ++ str "_vs.fxc") ->
  ~ referenced shaders (base_name ++ str "_ps.fxc") ->
  exists shader,
    In shader (snd (reconcile encode decode shaders all_fxc_files))
    /\ In shader (fst (reconcile encode decode shaders all_fxc_files))
    /\ pair_entry base_name shader.
Proof.
  intros Hv Hp Hkv Hkp. rewrite reconcile_fst_snd. cbn [fst snd].
  rewrite <- known_files_In in Hkv, Hkp.
  destruct (find_new_shaders_complete encode decode all_fxc_files
              (known_files shaders) base_name all_fxc_files [] []
              (fun g (H : In g []) => match H with end)
              (Forall_nil _) Hv Hp Hkv Hkp) as (sh & Hin & Hpair).
  exists sh. split; [exact Hin|]. split; [|exact Hpair].
  apply in_app_iff. now right.
Qed.

Lemma reconcile_finds_every_new_pair_witness :
  ~ referenced [shader_A] (str "B" ++ str "_vs.fxc")
  /\ exists shader,
      In shader (snd (reconcile PyCodec.encode PyCodec.decode [shader_A]
                                [str "A_vs.fxc"; str "B_ps.fxc"; str "A_ps.fxc";
                                 str "B_vs.fxc"]))
      /\ In shader (fst (reconcile PyCodec.encode PyCodec.decode [shader_A]
                                   [str "A_vs.fxc"; str "B_ps.fxc"; str "A_ps.fxc";
                                    str "B_vs.fxc"]))
      /\ pair_entry (str "B") shader.
Proof.
  assert (Hv : ~ referenced [shader_A] (str "B" ++ str "_vs.fxc")).
  { intros (sh & [<-|[]] & [H|H]); discriminate. }
  assert (Hp : ~ referenced [shader_A] (str "B" ++ str "_ps.fxc")).
  { intros (sh & [<-|[]] & [H|H]); discriminate. }
  split; [exact Hv|].
  apply (reconcile_finds_every_new_pair PyCodec.encode PyCodec.decode [shader_A]
           [str "A_vs.fxc"; str "B_ps.fxc"; str "A_ps.fxc"; str "B_vs.fxc"]
           (str "B")); try assumption; simpl; tauto.
Defined.

(** X13. Once the new entries are persisted, the reconcile step is
    idempotent: run again on the extended metadata and the same listing, it
    adds nothing and returns the extended metadata unchanged. *)
Theorem reconcile_idempotent_once_persisted
        (encode : string -> pystr -> option bytes)
        (decode : string -> bytes -> option pystr)
        (shaders : list shader_info) (all_fxc_files : list pystr) :
  reconcile encode decode
            (fst (reconcile encode decode shaders all_fxc_files)) all_fxc_files
  = (fst (reconcile encode decode shaders all_fxc_files), []).
Proof.
  rewrite (reconcile_fst_snd encode decode shaders). cbn [fst].
  set (new := find_new_shaders encode decode all_fxc_files
                (known_files shaders) all_fxc_files [] []).
  rewrite reconcile_fst_snd.
  rewrite (find_new_shaders_again encode decode all_fxc_files (known_files shaders)
             (known_files (shaders ++ new)) all_fxc_files [] [] [] []).
  - now rewrite app_nil_r.
  - intros g Hg. apply known_files_In, referenced_app. left.
    now apply known_files_In.
  - intros g Hg. apply known_files_In, referenced_app. now right.
  - intros g [].
Qed.


(** ** The executable patcher *)

Lemma bytes_eqb_eq (a b : bytes) : bytes_eqb a b = true <-> a = b.
Proof.
  unfold bytes_eqb. destruct (list_eq_dec byte_eq_dec a b); split; congruence.
Qed.

Lemma slice_six_length (off : nat) (data old : bytes) :
  slice data off (off + 6) = old -> length old = 6 -> off + 6 <= length data.
Proof.
  intros <-. unfold slice. rewrite length_firstn, length_skipn. lia.
Qed.

Section PatchAt.

Variable off : nat.
Variable new : bytes.
Hypothesis new_length : length new = 6.

Lemma set_slice_length (data : bytes) :
  off + 6 <= length data ->
  length (set_slice data off (off + 6) new) = length data.
Proof.
  intros H. unfold set_slice.
  rewrite !length_app, length_firstn, length_skipn, new_length. lia.
Qed.

Lemma set_slice_before (data : bytes) :
  off + 6 <= length data ->
  firstn off (set_slice data off (off + 6) new) = firstn off data.
Proof.
  intros H. unfold set_slice. rewrite firstn_app.
  rewrite length_firstn. replace (off - Nat.min off (length data)) with 0 by lia.
  rewrite firstn_O, app_nil_r. rewrite firstn_firstn. f_equal. lia.
Qed.

Lemma set_slice_after (data : bytes) :
  off + 6 <= length data ->
  skipn (off + 6) (set_slice data off (off + 6) new) = skipn (off + 6) data.
Proof.
  intros H. unfold set_slice. rewrite app_assoc, skipn_app.
  rewrite skipn_all2 by (rewrite length_app, length_firstn, new_length; lia).
  rewrite length_app, length_firstn, new_length.
  replace (off + 6 - (Nat.min off (length data) + 6)) with 0 by lia.
  reflexivity.
Qed.

Lemma set_slice_at (data : bytes) :
  off + 6 <= length data ->
  slice (set_slice data off (off + 6) new) off (off + 6) = new.
Proof.
  intros H. unfold set_slice. apply slice_mid.
  - rewrite length_firstn. lia.
  - rewrite new_length. reflexivity.
Qed.

End PatchAt.

Lemma patch_bytes_differ : bytes_eqb PATCH_BYTES EXPECTED_BYTES = false.
Proof. reflexivity. Qed.

(** X14. [patch_mgsv_exe] never creates or removes the executable, never
    changes its length and never changes a byte outside the six at the
    patch offset; and it returns [True] exactly when the executable ends
    with the patch bytes at that offset. *)
Theorem patch_touches_six_bytes (fs : exe_files) :
  match exe fs, exe (snd (patch_mgsv_exe fs)) with
  | Some data, Some data' =>
      length data' = length data
      /\ firstn FILE_OFFSET data' = firstn FILE_OFFSET data
      /\ skipn (FILE_OFFSET + 6) data' = skipn (FILE_OFFSET + 6) data
  | None, None => True
  | _, _ => False
  end
  /\ (fst (patch_mgsv_exe fs) = true
      <-> exists data',
          exe (snd (patch_mgsv_exe fs)) = Some data'
          /\ slice data' FILE_OFFSET (FILE_OFFSET + 6) = PATCH_BYTES).
Proof.
  unfold patch_mgsv_exe. generalize FILE_OFFSET. intros off.
  destruct fs as [[data|] bak]; cbn [exe backup];
    [|split; [exact I | split; [discriminate | intros (d & H & _); discriminate]]].
  cbv zeta.
  destruct (bytes_eqb (slice data off (off + 6)) EXPECTED_BYTES) eqn:E.
  - apply bytes_eqb_eq in E.
    pose proof (slice_six_length off data EXPECTED_BYTES E eq_refl) as L.
    cbn [fst snd exe]. split.
    + split; [now apply set_slice_length|].
      split; [now apply set_slice_before | now apply set_slice_after].
    + split; [|reflexivity]. intros _. eexists. split; [reflexivity|].
      now apply set_slice_at.
  - destruct (bytes_eqb (slice data off (off + 6)) PATCH_BYTES) eqn:P.
    + apply bytes_eqb_eq in P. destruct bak; cbn [fst snd exe];
        (split; [auto | split; [eauto | reflexivity]]).
    + destruct bak; cbn [fst snd exe];
        (split; [auto | split; [discriminate|]]);
        intros (d & [= <-] & H); apply bytes_eqb_eq in H; congruence.
Qed.

(** X15. Patching is idempotent: a second run of [patch_mgsv_exe] leaves
    both files as the first run left them and returns what the first run
    returned. *)
Theorem patch_idempotent (fs : exe_files) :
  patch_mgsv_exe (snd (patch_mgsv_exe fs)) = patch_mgsv_exe fs.
Proof.
  unfold patch_mgsv_exe. generalize FILE_OFFSET. intros off.
  destruct fs as [[data|] bak]; cbn [exe backup]; [|reflexivity].
  cbv zeta.
  destruct (bytes_eqb (slice data off (off + 6)) EXPECTED_BYTES) eqn:E.
  - pose proof E as E0. apply bytes_eqb_eq in E0.
    pose proof (slice_six_length off data EXPECTED_BYTES E0 eq_refl) as L.
    cbn [snd exe backup].
    rewrite (set_slice_at off PATCH_BYTES eq_refl data L).
    rewrite patch_bytes_differ.
    assert (R : bytes_eqb PATCH_BYTES PATCH_BYTES = true) by reflexivity.
    rewrite R. destruct bak; reflexivity.
  - destruct (bytes_eqb (slice data off (off + 6)) PATCH_BYTES) eqn:P;
      destruct bak; cbn [snd exe backup]; rewrite E, P; reflexivity.
Qed.

(** X16. The backup is made once and then kept: [patch_mgsv_exe] copies
    the executable to the backup only when there is none, whatever it then
    returns, and [restore_backup] after a patch puts the backup's contents
    back, which are the unpatched executable when no backup existed
    before. *)
Theorem patch_backup_restores (data : bytes) (bak : option bytes) :
  backup (snd (patch_mgsv_exe {| exe := Some data; backup := bak |}))
  = Some (match bak with Some b => b | None => data end)
  /\ restore_backup (snd (patch_mgsv_exe {| exe := Some data; backup := bak |}))
     = (true, {| exe := Some (match bak with Some b => b | None => data end);
                 backup := Some (match bak with Some b => b | None => data end) |}).
Proof.
  unfold patch_mgsv_exe, restore_backup. generalize FILE_OFFSET. intros off.
  cbn [exe backup]. cbv zeta.
  destruct (bytes_eqb (slice data off (off + 6)) EXPECTED_BYTES);
    [|destruct (bytes_eqb (slice data off (off + 6)) PATCH_BYTES)];
    destruct bak; cbn [snd exe backup]; split; reflexivity.
Qed.

(** ** The exceptions of the two loops *)

(** What one entry does to the encode loop over a directory of readable
    files, case by case. *)
Lemma pack_shader_cases
        (encode : string -> pystr -> option bytes)
        (files : pystr -> option bytes)
        (st : bytes * nat) (shader : shader_info) :
  match pack_shader encode files st shader with
  | Done st' =>
      (ready files shader = false /\ st' = st)
      \/ exists w,
           shader_wire encode files shader = Some w /\ wire_fits w
           /\ st' = (fst st ++ wire_bytes w, snd st + 1)
  | Raised UnicodeError =>
      ready files shader = true /\ shader_wire encode files shader = None
  | Raised ValueError =>
      exists w,
        shader_wire encode files shader = Some w
        /\ 256 <= length (wire_name w)
  | Raised StructError =>
      exists w,
        shader_wire encode files shader = Some w
        /\ length (wire_name w) < 256
        /\ ((two_32 <= N.of_nat (length (wire_vs w)))%N
            \/ (two_32 <= N.of_nat (length (wire_ps w)))%N)
  | Raised IndexError => False
  end.
Proof.
  destruct (ready files shader) eqn:R.
  2:{ rewrite (pack_shader_not_ready encode files st shader R). now left. }
  destruct st as [out n].
  unfold ready in R. unfold pack_shader, shader_wire, blob, stored_encoding.
  destruct (name shader) as [nm|]; [|discriminate].
  destruct (vertex_shader_file shader) as [v|]; [|discriminate].
  destruct (pixel_shader_file shader) as [p|]; [|discriminate].
  destruct (files v) as [vs|]; [|discriminate].
  destruct (files p) as [ps|]; [|discriminate].
  destruct (encode_name encode _ _) as [nb|e] eqn:E.
  - cbn [bind]. unfold write_record, bytearray_append, struct_pack_I.
    destruct (Nat.ltb_spec (length nb) 256) as [Ln|Ln]; cbn [bind];
      [|eexists; split; [reflexivity | exact Ln]].
    destruct (N.ltb_spec (N.of_nat (length (xor_encrypt vs))) two_32) as [Lv|Lv];
      cbn [bind]; [|eexists; split; [reflexivity | cbn [wire_name wire_vs]; auto]].
    destruct (N.ltb_spec (N.of_nat (length (xor_encrypt ps))) two_32) as [Lp|Lp];
      cbn [bind]; [|eexists; split; [reflexivity | cbn [wire_name wire_ps]; auto]].
    right. eexists. split; [reflexivity|]. split.
    + unfold wire_fits. cbn [wire_name wire_vs wire_ps]. auto.
    + cbn [fst snd]. unfold wire_bytes, record_bytes, le32.
      cbn [wire_name wire_vs wire_ps]. f_equal.
      rewrite <- !app_assoc. reflexivity.
  - cbn [bind]. unfold encode_name in E.
    destruct (encode _ (null_terminated nm)); [discriminate|].
    destruct (encode "shift-jis" _); [discriminate|].
    destruct (encode "utf-8" _); [discriminate|].
    destruct (encode "latin-1" _); [discriminate|].
    injection E as <-. split; reflexivity.
Qed.

Section DecodeErrors.

Variable encode : string -> pystr -> option bytes.
Variable decode : string -> bytes -> option pystr.

Lemma unpack_record_raises (data : bytes) (o : nat) (e : exn) :
  o < length data ->
  unpack_record encode decode data o = Raised e ->
  e = StructError
  \/ (e = UnicodeError /\ exists nb, decode "latin-1" nb = None).
Proof.
  intros Ho. unfold unpack_record.
  destruct (nth_error data o) as [b|] eqn:Eb.
  2:{ apply nth_error_None in Eb. lia. }
  cbv zeta. unfold decode_name at 1.
  destruct (decode "shift-jis" _) as [n|].
  2: destruct (decode "utf-8" _) as [n|].
  3: destruct (decode "latin-1" _) as [n|] eqn:El.
  4:{ cbn [bind]. intros [= <-]. right. split; [reflexivity|]. eauto. }
  all: cbn [bind];
    destruct (struct_unpack_I _) as [vs_size|e1] eqn:Ev; cbn [bind];
    [ destruct (struct_unpack_I _) as [ps_size|e2] eqn:Ep in |- *; cbn [bind];
      [ discriminate | ]
    | ].
  all: intros [= <-]; left;
    match goal with
    | H : struct_unpack_I ?b = Raised ?e |- ?e = _ =>
        unfold struct_unpack_I in H;
        destruct b as [|b0 [|b1 [|b2 [|b3 [|b4 t]]]]]; congruence
    end.
Qed.

Lemma unpack_loop_raises (fuel : nat) (data : bytes) (o : nat)
      (acc : list extracted) (e : exn) :
  unpack_loop encode decode fuel data o acc = Some (Raised e) ->
  e = StructError
  \/ (e = UnicodeError /\ exists nb, decode "latin-1" nb = None).
Proof.
  revert o acc. induction fuel as [|fuel IH]; intros o acc; simpl.
  - destruct (o <? length data); discriminate.
  - destruct (Nat.ltb_spec o (length data)) as [Hlt|Hge]; [|discriminate].
    destruct (unpack_record encode decode data o) as [[x o']|e'] eqn:E.
    + apply IH.
    + intros [= <-]. now apply (unpack_record_raises data o).
Qed.

End DecodeErrors.

(** X18. A decode that aborts raises [struct.error], from a size field
    that is not four bytes long, or the error of the last codec of the
    name chain; the index read [data[offset]] never raises. So with a
    latin-1 that decodes every byte string, the only exception of [unpack]
    is [struct.error]. *)
Theorem unpack_raises_only_struct_error
        (encode : string -> pystr -> option bytes)
        (decode : string -> bytes -> option pystr)
        (data : bytes) (e : exn) :
  unpack encode decode data = Some (Raised e) ->
  (e = StructError
   \/ (e = UnicodeError /\ exists nb, decode "latin-1" nb = None))
  /\ ((forall nb, decode "latin-1" nb <> None) -> e = StructError).
Proof.
  intros H. apply unpack_loop_raises in H. split; [exact H|].
  intros Hl. destruct H as [H|[_ [nb Hnb]]]; [exact H|].
  now apply Hl in Hnb.
Qed.

Lemma unpack_raises_only_struct_error_witness :
  py_unpack [x01; x41; x00; x00] = Some (Raised StructError)
  /\ (StructError = StructError
      \/ (StructError = UnicodeError
          /\ exists nb, PyCodec.decode "latin-1" nb = None)).
Proof.
  assert (E : py_unpack [x01; x41; x00; x00] = Some (Raised StructError))
    by (vm_compute; reflexivity).
  split; [exact E|].
  exact (proj1 (unpack_raises_only_struct_error PyCodec.encode PyCodec.decode
                  _ _ E)).
Defined.

(** ** The encode loop and the file system *)

(** Where every reference of the entry that exists is a readable file,
    the loop body with separate file-system calls is the loop body over
    the readable files. *)
Lemma pack_shader_io_refines
      (encode : string -> pystr -> option bytes)
      (dir : pystr -> path_state) (st : bytes * nat) (shader : shader_info) :
  (forall f,
      vertex_shader_file shader = Some f \/ pixel_shader_file shader = Some f ->
      dir f <> Unreadable) ->
  pack_shader_io encode dir st shader
  = Ran (pack_shader encode (readable dir) st shader).
Proof.
  intros H. unfold pack_shader_io, pack_shader, readable. destruct st as [out n].
  destruct (name shader) as [nm|]; [|reflexivity].
  destruct (vertex_shader_file shader) as [v|]; [|reflexivity].
  destruct (pixel_shader_file shader) as [p|]; [|reflexivity].
  pose proof (H v (or_introl eq_refl)) as Hv.
  pose proof (H p (or_intror eq_refl)) as Hp.
  destruct (dir v) as [|vs|]; [reflexivity | | contradiction].
  destruct (dir p) as [|ps|]; [reflexivity | reflexivity | contradiction].
Qed.

(** X17. What one entry does to the encode loop, case by case, with
    [Path.exists()] and [open().read()] as the separate calls they are: the
    entry is skipped and leaves the state as it is (a key is missing or a
    path does not exist); or it appends exactly its record and adds one to
    the count; or it raises: [OSError] when a path exists and cannot be read
    as a file, [UnicodeError] when no codec of the chain encodes its name,
    [ValueError] when the encoded name has 256 bytes or more,
    [struct.error] when a blob has 2^32 bytes or more. Over metadata whose
    values are strings, the loop body raises nothing else. *)
Theorem pack_shader_io_outcomes
        (encode : string -> pystr -> option bytes)
        (dir : pystr -> path_state)
        (st : bytes * nat) (shader : shader_info) :
  match pack_shader_io encode dir st shader with
  | Ran (Done st') =>
      (ready_io dir shader = false /\ st' = st)
      \/ exists w,
           shader_wire encode (readable dir) shader = Some w /\ wire_fits w
           /\ st' = (fst st ++ wire_bytes w, snd st + 1)
  | RaisedOSError =>
      ready_io dir shader = true
      /\ (blob (readable dir) (vertex_shader_file shader) = None
          \/ blob (readable dir) (pixel_shader_file shader) = None)
  | Ran (Raised UnicodeError) =>
      ready_io dir shader = true
      /\ blob (readable dir) (vertex_shader_file shader) <> None
      /\ blob (readable dir) (pixel_shader_file shader) <> None
      /\ shader_wire encode (readable dir) shader = None
  | Ran (Raised ValueError) =>
      exists w,
        shader_wire encode (readable dir) shader = Some w
        /\ 256 <= length (wire_name w)
  | Ran (Raised StructError) =>
      exists w,
        shader_wire encode (readable dir) shader = Some w
        /\ length (wire_name w) < 256
        /\ ((two_32 <= N.of_nat (length (wire_vs w)))%N
            \/ (two_32 <= N.of_nat (length (wire_ps w)))%N)
  | Ran (Raised IndexError) => False
  end.
Proof.
  destruct (ready_io dir shader) eqn:R.
  2:{ assert (E : pack_shader_io encode dir st shader = Ran (Done st)).
      { unfold ready_io in R. unfold pack_shader_io. destruct st as [out n].
        destruct (name shader) as [nm|]; [|reflexivity].
        destruct (vertex_shader_file shader) as [v|]; [|reflexivity].
        destruct (pixel_shader_file shader) as [p|]; [|reflexivity].
        apply andb_false_iff in R.
        destruct R as [R|R]; rewrite R; [reflexivity|].
        cbn [negb]. now rewrite orb_true_r. }
      rewrite E. now left. }
  unfold ready_io in R.
  destruct (name shader) as [nm|] eqn:En; [|discriminate].
  destruct (vertex_shader_file shader) as [v|] eqn:Ev; [|discriminate].
  destruct (pixel_shader_file shader) as [p|] eqn:Ep; [|discriminate].
  apply andb_true_iff in R. destruct R as [Rv Rp].
  destruct (dir v) as [|vs|] eqn:Dv; [discriminate| |].
  - destruct (dir p) as [|ps|] eqn:Dp; [discriminate| |].
    + (* both files are read: the loop body over the readable files *)
      assert (Href : pack_shader_io encode dir st shader
                     = Ran (pack_shader encode (readable dir) st shader)).
      { apply pack_shader_io_refines. rewrite Ev, Ep.
        intros f [[= <-]|[= <-]]; congruence. }
      rewrite Href.
      assert (Hready : ready (readable dir) shader = true).
      { unfold ready, readable. now rewrite En, Ev, Ep, Dv, Dp. }
      pose proof (pack_shader_cases encode (readable dir) st shader) as C.
      destruct (pack_shader encode (readable dir) st shader) as [st'|[| | |]].
      * destruct C as [[C _]|C]; [congruence | now right].
      * exact C.
      * exact C.
      * destruct C as [_ C]. cbn [blob]. unfold readable at 1 2.
        rewrite Dv, Dp. repeat split; try discriminate. exact C.
      * exact C.
    + assert (E : pack_shader_io encode dir st shader = RaisedOSError).
      { unfold pack_shader_io. destruct st as [out n].
        now rewrite En, Ev, Ep, Dv, Dp. }
      rewrite E. split; [reflexivity|]. right. cbn [blob]. unfold readable.
      now rewrite Dp.
  - assert (E : pack_shader_io encode dir st shader = RaisedOSError).
    { unfold pack_shader_io. destruct st as [out n].
      rewrite En, Ev, Ep, Dv. now rewrite Rp. }
    rewrite E. split; [reflexivity|]. left. cbn [blob]. unfold readable.
    now rewrite Dv.
Qed.

Example pack_shader_io_empty_reference :
  pack_shader_io PyCodec.encode dir_with_empty_reference ([], 0)
                 shader_empty_reference = RaisedOSError
  /\ pack_shader_io PyCodec.encode dir_with_empty_reference ([], 0) shader_A
     = Ran (Done (wire_bytes wire_A, 1)).
Proof. split; vm_compute; reflexivity. Qed.
